(** * PeriPy: the ramp controller, the array store and the example callbacks

    A shallow embedding of [peridynamics/utilities.py] and of the two
    callbacks of [examples/example1/example.py] that the specification
    talks about, followed by the theorems relating the code to the
    specification.

    Numbers.  Python [int]s are [Z].  Floats are modelled at two levels.
    [Module FP] gives the ramp controller over the interface [Float] of the
    float operations that the code uses, with [np.linalg.solve] as a
    parameter: what is proved there is about the control flow and the
    expressions of the code, and holds whatever the arithmetic rounds to
    (IEEE binary64 is the instance [binary64]).  [Module Utilities] is the
    same code at the exact rationals [Q], with Cramer's rule for the solve:
    there every operation is the exact one, equality of computed floats is
    stated with [==], and the theorems are about the numbers that the code
    approximates.  [np.inf] is a separate constructor ([Inf]).

    Exceptions.  A Python call either returns a value or raises; this is
    the [result] type below, with the usual bind. *)

From Stdlib Require Import ZArith QArith Qround Qabs List Bool Lia Lqa.
From Stdlib Require Import Floats.SpecFloat.
From stdpp Require Import gmap strings.
Import ListNotations.

Local Open Scope Z_scope.

(** ** Python exceptions and results *)

Module Py.

Inductive exn : Type :=
| ValueError
| LinAlgError
| IOError
| KeyError
| UnboundLocalError
| IndexError
| ZeroDivisionError
| TypeError.

#[global] Instance exn_eq_dec : EqDecision exn.
Proof. solve_decision. Defined.

Inductive result (A : Type) : Type :=
| Ok (a : A)
| Raise (e : exn).

Arguments Ok {A} a.
Arguments Raise {A} e.

Definition bind {A B : Type} (r : result A) (k : A -> result B) : result B :=
  match r with
  | Ok a => k a
  | Raise e => Raise e
  end.

(** [try: body  except E: handler] for a single exception class [E]. *)
Definition try_except {A : Type} (body : result A) (E : exn)
           (handler : result A) : result A :=
  match body with
  | Ok a => Ok a
  | Raise e => if decide (e = E) then handler else Raise e
  end.

End Py.

Import Py.

#[global] Instance result_ret : MRet result := @Ok.
#[global] Instance result_bind : MBind result := fun A B k r => Py.bind r k.

(** Strict comparison of two floats, as a boolean. *)
Definition Qltb (x y : Q) : bool :=
  (Qnum x * QDen y <? Qnum y * QDen x)%Z.

(** ** Floating-point arithmetic

    The operations on floats that the code uses, as an interface:
    - [of_int n], the conversion that Python applies to an [int] operand
      of a float operation, as to [5] in [5 * a];
    - [literal q], a decimal literal such as [0.0] or [1.0];
    - [fadd], [fsub], [fmul], [fdiv] and [fpow x n], which are [+], [-],
      [*], [/] and [x ** n] on floats, [n] being an [int];
    - [int_truediv m n], which is [m / n] on two [int]s, the correctly
      rounded quotient;
    - [flt x y], which is [x < y], with [x > y] being [flt y x];
    - [int_lt n x] and [gt_int x n], which are [n < x] and [x > n] for an
      [int] [n]: Python compares the exact values;
    - [inf_gt x], which is [np.inf > x]. *)

Class Float (F : Type) : Type := {
  of_int : Z -> F;
  literal : Q -> F;
  fadd : F -> F -> F;
  fsub : F -> F -> F;
  fmul : F -> F -> F;
  fdiv : F -> F -> F;
  fpow : F -> Z -> F;
  int_truediv : Z -> Z -> F;
  flt : F -> F -> bool;
  int_lt : Z -> F -> bool;
  gt_int : F -> Z -> bool;
  inf_gt : F -> bool
}.

Declare Scope fp_scope.
Delimit Scope fp_scope with fp.
Infix "⊕" := fadd (at level 50, left associativity) : fp_scope.
Infix "⊖" := fsub (at level 50, left associativity) : fp_scope.
Infix "⊗" := fmul (at level 40, left associativity) : fp_scope.
Infix "⊘" := fdiv (at level 40, left associativity) : fp_scope.
Infix "≺" := flt (at level 70, no associativity) : fp_scope.

(** The exact rationals: nothing is rounded, and [np.inf] is above every
    number. *)
#[global] Instance exact : Float Q := {|
  of_int := inject_Z;
  literal q := q;
  fadd := Qplus;
  fsub := Qminus;
  fmul := Qmult;
  fdiv := Qdiv;
  fpow := Qpower;
  int_truediv m n := (inject_Z m / inject_Z n)%Q;
  flt := Qltb;
  int_lt n x := Qltb (inject_Z n) x;
  gt_int x n := Qltb (inject_Z n) x;
  inf_gt _ := true
|}.

(** IEEE binary64, round to nearest even, from the Standard Library's
    executable specification of floats.  [b64 m e] is the float nearest to
    [m * 2^e]. *)
Definition b64 (m e : Z) : spec_float := binary_normalize 53 1024 m e false.

(** An integer as an unrounded operand of a division or a comparison. *)
Definition b64_int (n : Z) : spec_float :=
  match n with
  | Z0 => S754_zero false
  | Zpos p => S754_finite false p 0
  | Zneg p => S754_finite true p 0
  end.

Definition b64_compare_int (n : Z) (x : spec_float) : option comparison :=
  match x with
  | S754_nan => None
  | S754_infinity s => Some (if s then Gt else Lt)
  | S754_zero _ => Some (n ?= 0)
  | S754_finite s m e =>
      Some (inject_Z n ?= inject_Z (cond_Zopp s (Zpos m)) * 2 ^ e)%Q
  end.

Definition b64_int_lt (n : Z) (x : spec_float) : bool :=
  match b64_compare_int n x with
  | Some Lt => true
  | _ => false
  end.

(** Powers by repeated multiplication.  Python calls C's [pow], which
    agrees with this wherever the power is exactly a float, as for
    [2.0 ** 4], and may differ in the last bit elsewhere. *)
Definition b64_pow (x : spec_float) (n : Z) : spec_float :=
  match n with
  | Z0 => b64 1 0
  | Zpos p => Pos.iter (fun y => SFmul 53 1024 y x) (b64 1 0) p
  | Zneg p =>
      SFdiv 53 1024 (b64 1 0)
        (Pos.iter (fun y => SFmul 53 1024 y x) (b64 1 0) p)
  end.

#[global] Instance binary64 : Float spec_float := {|
  of_int n := b64 n 0;
  literal q := SFdiv 53 1024 (b64_int (Qnum q)) (b64_int (Zpos (Qden q)));
  fadd := SFadd 53 1024;
  fsub := SFsub 53 1024;
  fmul := SFmul 53 1024;
  fdiv := SFdiv 53 1024;
  fpow := b64_pow;
  int_truediv m n := SFdiv 53 1024 (b64_int m) (b64_int n);
  flt := SFltb;
  int_lt := b64_int_lt;
  gt_int x n := b64_int_lt n x;
  inf_gt x := SFltb x (S754_infinity false)
|}.

(** ** peridynamics/utilities.py *)

Module Utilities.

(** *** The HDF5 collaborator

    A file system maps a path to an HDF5 file, and an HDF5 file maps a
    dataset name to an array.  [h5py.File(path, 'r')] raises [IOError]
    (an alias of [OSError]) when the file does not exist.  Indexing a
    file with a name it does not hold raises; h5py documents [KeyError],
    and the code under study expects [IOError], so the exception class
    is left as the parameter [missing] of the model. *)

(** The number of dimensions of an array.  Any array can be stored, but
    [d[:]] on a dataset [d] that holds an array without dimensions (a
    scalar dataspace) raises [ValueError]. *)
Class Shape (array : Type) : Type := ndim : array -> nat.

Section H5.
Context {array : Type} {shape : Shape array}.

Variable missing : exn.

Definition h5py_File_r (fs : gmap string (gmap string array))
           (read_path : string)
  : result (gmap string array) :=
  match fs !! read_path with
  | Some hf => Ok hf
  | None => Raise IOError
  end.

Definition h5_getitem (hf : gmap string array) (dataset : string)
  : result array :=
  match hf !! dataset with
  | Some a => Ok a
  | None => Raise missing
  end.

(** [d[:]]: the whole array of the dataset [d]. *)
Definition dataset_slice (d : array) : result array :=
  if (ndim d =? 0)%nat then Raise ValueError else Ok d.

(** The local variable [array] of [read_array]: bound or not. *)
Definition read_local (v : option array) : result array :=
  match v with
  | Some a => Ok a
  | None => Raise UnboundLocalError
  end.

(** [read_array]: [Ok (Some a)] is a returned array, [Ok None] is the
    Python value [None].  The inner [try] binds [array] to
    [hf[dataset][:]] or, on [IOError], prints and leaves it unbound;
    [return array] then reads the local.  The outer handler turns
    [IOError] into [None]. *)
Definition read_array (fs : gmap string (gmap string array))
           (read_path dataset : string)
  : result (option array) :=
  try_except
    (hf ← h5py_File_r fs read_path;
     local ← try_except
                (d ← h5_getitem hf dataset;
                 a ← dataset_slice d;
                 Ok (Some a))
                IOError
                (Ok None);
     a ← read_local local;
     Ok (Some a))
    IOError
    (Ok None).

End H5.

(** A Python list is stored as a one-dimensional array, a number as an
    array without dimensions. *)
#[global] Instance list_shape {A : Type} : Shape (list A) := fun _ => 1%nat.
#[global] Instance number_shape : Shape Z := fun _ => 0%nat.

(** [write_array].  [h5py.File(write_path, 'a')] opens the file and
    creates it, empty, when it does not exist; [create_dataset] raises when
    the file already holds the name (h5py raises [ValueError], older
    versions [RuntimeError]): the class is the parameter [existing].  The
    result is the file system after the call, with [Ok tt] for the Python
    value [None].  As for reading, a dataset name is a plain key of the
    file (a name without [/], which would address a group), and every path
    of the file system is an HDF5 file the process may open. *)

Section H5Write.
Context {array : Type}.

Variable existing : exn.

Definition h5py_File_a (fs : gmap string (gmap string array))
           (write_path : string)
  : gmap string (gmap string array) * gmap string array :=
  match fs !! write_path with
  | Some hf => (fs, hf)
  | None => (<[write_path := ∅]> fs, ∅)
  end.

Definition create_dataset (hf : gmap string array) (dataset : string)
           (data : array) : result (gmap string array) :=
  match hf !! dataset with
  | Some _ => Raise existing
  | None => Ok (<[dataset := data]> hf)
  end.

Definition write_array (fs : gmap string (gmap string array))
           (write_path dataset : string) (data : array)
  : gmap string (gmap string array) * result unit :=
  let '(fs1, hf) := h5py_File_a fs write_path in
  match create_dataset hf dataset data with
  | Ok hf' => (<[write_path := hf']> fs1, Ok tt)
  | Raise e => (fs1, Raise e)
  end.

End H5Write.

(** *** Linear algebra: the 3x3 instance of [np.linalg.solve]

    [np.linalg.solve A b] returns the solution of [A x = b] and raises
    [LinAlgError] ("Singular matrix") when [A] is singular.  In exact
    arithmetic the solution is given by Cramer's rule. *)

Definition vec3 : Type := (Q * Q * Q)%type.
Definition mat3 : Type := (vec3 * vec3 * vec3)%type.

Definition det3 (A : mat3) : Q :=
  let '((a11, a12, a13), (a21, a22, a23), (a31, a32, a33)) := A in
  (a11 * (a22 * a33 - a23 * a32)
   - a12 * (a21 * a33 - a23 * a31)
   + a13 * (a21 * a32 - a22 * a31))%Q.

(** [A] with column [j] replaced by [b]. *)
Definition replace_col (j : nat) (A : mat3) (b : vec3) : mat3 :=
  let '((a11, a12, a13), (a21, a22, a23), (a31, a32, a33)) := A in
  let '(b1, b2, b3) := b in
  match j with
  | O => ((b1, a12, a13), (b2, a22, a23), (b3, a32, a33))
  | S O => ((a11, b1, a13), (a21, b2, a23), (a31, b3, a33))
  | _ => ((a11, a12, b1), (a21, a22, b2), (a31, a32, b3))
  end.

Definition mat_vec (A : mat3) (x : vec3) : vec3 :=
  let '((a11, a12, a13), (a21, a22, a23), (a31, a32, a33)) := A in
  let '(x1, x2, x3) := x in
  (a11 * x1 + a12 * x2 + a13 * x3,
   a21 * x1 + a22 * x2 + a23 * x3,
   a31 * x1 + a32 * x2 + a33 * x3)%Q.

Definition linalg_solve (A : mat3) (b : vec3) : result vec3 :=
  let d := det3 A in
  if Qeq_bool d 0 then Raise LinAlgError
  else Ok (det3 (replace_col 0 A b) / d,
           det3 (replace_col 1 A b) / d,
           det3 (replace_col 2 A b) / d)%Q.

(** *** The ramp controller *)

(** [5 * a * t**4 + 4 * b * t**3 + 3 * c * t**2], the expression that
    [_calc_midpoint_gradient] and both polynomial branches of
    [calc_displacement_scale] evaluate. *)
Definition quintic_rate (coefficients : vec3) (t : Q) : Q :=
  let '(a, b, c) := coefficients in
  (5 * a * t ^ 4 + 4 * b * t ^ 3 + 3 * c * t ^ 2)%Q.

Definition _calc_midpoint_gradient (T : Z) (displacement : Q)
  : result (Q * vec3) :=
  let A : mat3 :=
    ((inject_Z (1 * T ^ 5), inject_Z (1 * T ^ 4), inject_Z (1 * T ^ 3)),
     (inject_Z (20 * T ^ 3), inject_Z (12 * T ^ 2), inject_Z (6 * T)),
     (inject_Z (5 * T ^ 4), inject_Z (4 * T ^ 3), inject_Z (3 * T ^ 2))) in
  let b : vec3 := (displacement, 0, 0)%Q in
  x ← linalg_solve A b;
  let midpoint_gradient := quintic_rate x (inject_Z T / 2)%Q in
  let coefficients := x in
  Ok (midpoint_gradient, coefficients).

Definition calc_displacement_scale
           (coefficients : vec3) (max_displacement : Q) (build_time : Z)
           (max_displacement_rate : Q) (step : Z) (build_displacement : Q)
           (ease_off : Z) : Q * Z :=
  if Qltb (inject_Z step) (inject_Z build_time / 2) then
    (* Acceleration part of displacement-time curve. *)
    (quintic_rate coefficients (inject_Z step), ease_off)
  else if negb (ease_off =? 0) then
    (* Deceleration part of displacement-time curve. *)
    let t := (inject_Z step - inject_Z ease_off + inject_Z build_time / 2)%Q in
    if Qltb (inject_Z build_time) t then (0%Q, ease_off)
    else (quintic_rate coefficients t, ease_off)
  else
    (* Constant velocity *)
    let linear_time := (inject_Z step - inject_Z build_time / 2)%Q in
    let linear_displacement := (linear_time * max_displacement_rate)%Q in
    let displacement := (linear_displacement + build_displacement / 2)%Q in
    if Qltb (displacement + build_displacement / 2) max_displacement then
      ((1 * max_displacement_rate)%Q, ease_off)
    else
      ((1 * max_displacement_rate)%Q, step).

(** The float [midpoint_gradient] of [calc_build_time], which starts as
    [np.inf]. *)
Inductive gradient : Type :=
| Inf
| Fin (g : Q).

Definition gradient_gt (m : gradient) (r : Q) : bool :=
  match m with
  | Inf => true
  | Fin g => Qltb r g
  end.

(** The [while] loop of [calc_build_time], from its loop head.  The state
    is [build_time], [midpoint_gradient] and [coefficients], the last one
    unbound ([None]) until a solve succeeds.  [None] as a result means
    that [fuel] iterations were not enough. *)
Fixpoint calc_build_time_loop (fuel : nat)
         (build_displacement max_displacement_rate : Q) (steps : Z)
         (build_time : Z) (midpoint_gradient : gradient)
         (coefficients : option vec3) : option (result (Z * vec3)) :=
  match fuel with
  | O => None
  | S fuel' =>
      if gradient_gt midpoint_gradient max_displacement_rate then
        (* the rest of the body, after the [try] statement *)
        let continue midpoint_gradient' coefficients' :=
          let build_time' := build_time + 1 in
          if build_time' >? steps then Some (Raise ValueError)
          else calc_build_time_loop fuel' build_displacement
                 max_displacement_rate steps build_time' midpoint_gradient'
                 coefficients' in
        match _calc_midpoint_gradient build_time build_displacement with
        | Ok (m, c) => continue (Fin m) (Some c)
        | Raise LinAlgError => continue midpoint_gradient coefficients
        | Raise e => Some (Raise e)
        end
      else
        match coefficients with
        | Some c => Some (Ok (build_time, c))
        | None => Some (Raise UnboundLocalError)
        end
  end.

(** The loop head at [build_time] is reached only with
    [build_time <= steps] (or at the start), and every iteration
    increments [build_time]: [S (Z.to_nat steps)] iterations suffice
    (see [calc_build_time_total]). *)
Definition calc_build_time (build_displacement max_displacement_rate : Q)
           (steps : Z) : option (result (Z * vec3)) :=
  calc_build_time_loop (S (Z.to_nat steps)) build_displacement
    max_displacement_rate steps 0 Inf None.

End Utilities.

(** ** The ramp controller over any floating-point arithmetic

    The three functions once more, with the operations of [Float] where the
    code computes with floats, in the order in which Python evaluates them,
    and with [np.linalg.solve] as the parameter [solve]: whatever LAPACK
    returns or raises for the integer matrix and the right-hand side.
    [Utilities] above is this model at the exact rationals with Cramer's
    rule ([calc_midpoint_gradient_exact], [calc_build_time_exact] and
    [calc_displacement_scale_exact] below). *)

Module FP.
Section WithFloat.
Context {F : Type} `{Float F}.
Local Open Scope fp_scope.

Definition vec3 : Type := (F * F * F)%type.
Definition row3 : Type := (Z * Z * Z)%type.
Definition mat3 : Type := (row3 * row3 * row3)%type.

Variable solve : mat3 -> vec3 -> result vec3.

Definition _calc_midpoint_gradient (T : Z) (displacement : F)
  : result (F * vec3) :=
  let A : mat3 :=
    ((1 * T ^ 5, 1 * T ^ 4, 1 * T ^ 3),
     (20 * T ^ 3, 12 * T ^ 2, 6 * T),
     (5 * T ^ 4, 4 * T ^ 3, 3 * T ^ 2)) in
  let b : vec3 := (displacement, literal 0%Q, literal 0%Q) in
  x ← solve A b;
  let '(a, b, c) := x in
  let midpoint_gradient :=
    of_int 5 ⊗ a ⊗ fpow (int_truediv T 2) 4
    ⊕ of_int 4 ⊗ b ⊗ fpow (int_truediv T 2) 3
    ⊕ of_int 3 ⊗ c ⊗ fpow (int_truediv T 2) 2 in
  let coefficients := (a, b, c) in
  Ok (midpoint_gradient, coefficients).

Definition calc_displacement_scale
           (coefficients : vec3) (max_displacement : F) (build_time : Z)
           (max_displacement_rate : F) (step : Z) (build_displacement : F)
           (ease_off : Z) : F * Z :=
  let '(a, b, c) := coefficients in
  if int_lt step (int_truediv build_time 2) then
    (* Acceleration part of displacement-time curve. *)
    let m := of_int 5 ⊗ a ⊗ of_int (step ^ 4)
             ⊕ of_int 4 ⊗ b ⊗ of_int (step ^ 3)
             ⊕ of_int 3 ⊗ c ⊗ of_int (step ^ 2) in
    (m, ease_off)
  else if negb (ease_off =? 0) then
    (* Deceleration part of displacement-time curve. *)
    let t := of_int (step - ease_off) ⊕ int_truediv build_time 2 in
    if gt_int t build_time then (literal 0%Q, ease_off)
    else
      let m := of_int 5 ⊗ a ⊗ fpow t 4 ⊕ of_int 4 ⊗ b ⊗ fpow t 3
               ⊕ of_int 3 ⊗ c ⊗ fpow t 2 in
      (m, ease_off)
  else
    (* Constant velocity *)
    let linear_time := of_int step ⊖ int_truediv build_time 2 in
    let linear_displacement := linear_time ⊗ max_displacement_rate in
    let displacement := linear_displacement ⊕ build_displacement ⊘ of_int 2 in
    if displacement ⊕ build_displacement ⊘ of_int 2 ≺ max_displacement then
      (literal 1%Q ⊗ max_displacement_rate, ease_off)
    else
      (literal 1%Q ⊗ max_displacement_rate, step).

(** The float [midpoint_gradient] of [calc_build_time], which starts as
    [np.inf]. *)
Inductive gradient : Type :=
| Inf
| Fin (g : F).

(** [midpoint_gradient > max_displacement_rate]. *)
Definition gradient_gt (m : gradient) (r : F) : bool :=
  match m with
  | Inf => inf_gt r
  | Fin g => r ≺ g
  end.

(** The [while] loop of [calc_build_time], from its loop head, with the
    state [build_time], [midpoint_gradient] and [coefficients] (unbound,
    [None], until a solve succeeds).  The handler swallows every
    [LinAlgError]; any other exception of the solve leaves the function.
    [None] as a result means that [fuel] iterations were not enough. *)
Fixpoint calc_build_time_loop (fuel : nat)
         (build_displacement max_displacement_rate : F) (steps : Z)
         (build_time : Z) (midpoint_gradient : gradient)
         (coefficients : option vec3) : option (result (Z * vec3)) :=
  match fuel with
  | O => None
  | S fuel' =>
      if gradient_gt midpoint_gradient max_displacement_rate then
        (* the rest of the body, after the [try] statement *)
        let continue midpoint_gradient' coefficients' :=
          let build_time' := build_time + 1 in
          if build_time' >? steps then Some (Raise ValueError)
          else calc_build_time_loop fuel' build_displacement
                 max_displacement_rate steps build_time' midpoint_gradient'
                 coefficients' in
        match _calc_midpoint_gradient build_time build_displacement with
        | Ok (m, c) => continue (Fin m) (Some c)
        | Raise LinAlgError => continue midpoint_gradient coefficients
        | Raise e => Some (Raise e)
        end
      else
        match coefficients with
        | Some c => Some (Ok (build_time, c))
        | None => Some (Raise UnboundLocalError)
        end
  end.

Definition calc_build_time (build_displacement max_displacement_rate : F)
           (steps : Z) : option (result (Z * vec3)) :=
  calc_build_time_loop (S (Z.to_nat steps)) build_displacement
    max_displacement_rate steps 0 Inf None.

End WithFloat.

Arguments vec3 F : clear implicits.
Arguments gradient F : clear implicits.

End FP.

(** [np.linalg.solve] at the exact rationals: Cramer's rule on the matrix
    of integers. *)
Definition exact_solve (A : FP.mat3) (b : Utilities.vec3)
  : result Utilities.vec3 :=
  let '((a11, a12, a13), (a21, a22, a23), (a31, a32, a33)) := A in
  Utilities.linalg_solve
    ((inject_Z a11, inject_Z a12, inject_Z a13),
     (inject_Z a21, inject_Z a22, inject_Z a23),
     (inject_Z a31, inject_Z a32, inject_Z a33)) b.

(** The gradient of the exact loop, as a gradient of the loop over [Float]. *)
Definition gradient_exact (m : Utilities.gradient) : FP.gradient Q :=
  match m with
  | Utilities.Inf => FP.Inf
  | Utilities.Fin g => FP.Fin g
  end.

(** ** NumPy arrays, as far as the example needs them *)

Module Numpy.

(** [x[i]] on a one-dimensional array, for a literal index [i >= 0]. *)
Definition getitem (x : list Q) (i : nat) : result Q :=
  match x !! i with
  | Some v => Ok v
  | None => Raise IndexError
  end.

(** Float division; a zero divisor is reported as an error. *)
Definition truediv (x y : Q) : result Q :=
  if Qeq_bool y 0 then Raise ZeroDivisionError else Ok (x / y)%Q.

(** A two-dimensional array: its rows, and the length [ncols] of every
    row (known even when there is no row). *)
Record ndarray : Type := {
  ncols : nat;
  rows : list (list Q)
}.

Definition wf (u : ndarray) : Prop :=
  Forall (fun r => length r = ncols u) (rows u).

(** An index into an axis of length [n]: negative indices count from the
    end, anything outside [-n, n) raises [IndexError]. *)
Definition normalize_index (n : nat) (i : Z) : result nat :=
  if (0 <=? i) && (i <? Z.of_nat n) then Ok (Z.to_nat i)
  else if (- Z.of_nat n <=? i) && (i <? 0) then Ok (Z.to_nat (Z.of_nat n + i))
  else Raise IndexError.

Fixpoint normalize_indices (n : nat) (idx : list Z) : result (list nat) :=
  match idx with
  | [] => Ok []
  | i :: idx' =>
      k ← normalize_index n i;
      ks ← normalize_indices n idx';
      Ok (k :: ks)
  end.

(** [f] applied to every row whose index occurs in [ks]. *)
Definition update_rows (f : list Q -> list Q) (ks : list nat)
           (rs : list (list Q)) : list (list Q) :=
  imap (fun i r => if bool_decide (i ∈ ks) then f r else r) rs.

(** [row[lo:hi] = v]: slices are clipped to the row, never an error. *)
Definition fill_slice (lo hi : nat) (v : Q) (row : list Q) : list Q :=
  imap (fun j x => if (lo <=? j)%nat && (j <? hi)%nat then v else x) row.

(** [u[idx, lo:hi] = v] for an index array [idx] and a scalar [v]. *)
Definition setitem_rows_slice (u : ndarray) (idx : list Z) (lo hi : nat)
           (v : Q) : result ndarray :=
  ks ← normalize_indices (length (rows u)) idx;
  Ok {| ncols := ncols u;
        rows := update_rows (fill_slice lo hi v) ks (rows u) |}.

(** [u[idx, j] = v] for an index array [idx], a literal column [j >= 0]
    and a scalar [v]. *)
Definition setitem_rows_col (u : ndarray) (idx : list Z) (j : nat)
           (v : Q) : result ndarray :=
  ks ← normalize_indices (length (rows u)) idx;
  if (j <? ncols u)%nat then
    Ok {| ncols := ncols u;
          rows := update_rows (fun r => <[j := v]> r) ks (rows u) |}
  else Raise IndexError.

(** [u[:, j]] for a literal column [j >= 0]. *)
Definition getcol (u : ndarray) (j : nat) : result (list Q) :=
  if (j <? ncols u)%nat then Ok (map (fun r => nth j r 0%Q) (rows u))
  else Raise IndexError.

(** The indices, from [i] on, at which a mask holds. *)
Fixpoint nonzero_from (i : Z) (mask : list bool) : list Z :=
  match mask with
  | [] => []
  | b :: mask' =>
      if b then i :: nonzero_from (i + 1) mask'
      else nonzero_from (i + 1) mask'
  end.

(** [np.nonzero(mask)] for a one-dimensional mask: its only component. *)
Definition nonzero (mask : list bool) : list Z := nonzero_from 0 mask.

End Numpy.

(** ** examples/example1/example.py *)

Module Example1.
Import Numpy.

(** The body of [is_crack].  The decorator [initial_crack_helper] (not
    part of the sources at hand) applies it to the reference coordinates
    of each pair of particles; [x] and [y] are such coordinates. *)
Definition is_crack (x y : list Q) : result Z :=
  let output := 0 in
  let crack_length : Q := 3 # 10 in
  x0 ← getitem x 0;
  y0 ← getitem y 0;
  let '(p1, p2) := if Qltb y0 x0 then (y, x) else (x, y) in
  (* 1e-6 makes it fall one side of central line of particles *)
  p10 ← getitem p1 0;
  p20 ← getitem p2 0;
  if Qltb p10 ((1 # 2) + (1 # 1000000)) && Qltb ((1 # 2) + (1 # 1000000)) p20
  then
    (* draw a straight line between them *)
    p21 ← getitem p2 1;
    p11 ← getitem p1 1;
    m ← truediv (p21 - p11) (p20 - p10);
    let c := (p11 - m * p10)%Q in
    (* height a x = 0.5 *)
    let height := (m * (1 # 2) + c)%Q in
    if Qltb ((1 # 2) * (1 - crack_length)) height
       && Qltb height ((1 # 2) * (1 + crack_length))
    then Ok 1
    else Ok output
  else Ok output.

(** The attributes of [model] that [boundary_function] reads: the index
    arrays of the two loaded sides. *)
Record Model : Type := {
  lhs : list Z;
  rhs : list Z
}.

Definition load_rate : Q := 5 # 1000000.

Definition extension (step : Z) : Q := ((1 # 2) * inject_Z step * load_rate)%Q.

Definition boundary_function (model : Model) (u : ndarray) (step : Z)
  : result ndarray :=
  u ← setitem_rows_slice u (lhs model) 1 3 0%Q;
  u ← setitem_rows_slice u (rhs model) 1 3 0%Q;
  u ← setitem_rows_col u (lhs model) 0 (- extension step)%Q;
  u ← setitem_rows_col u (rhs model) 0 (extension step);
  Ok u.

Definition is_tip (horizon : Q) (x : list Q) : result Z :=
  let output := 0 in
  x0 ← getitem x 0;
  if Qltb (1 - 1 * horizon) x0 then Ok 1 else Ok output.

Definition is_boundary (horizon : Q) (x : list Q) : result Z :=
  (* Does not live on a boundary *)
  let bnd := 2 in
  (* Does live on boundary *)
  x0 ← getitem x 0;
  if Qltb x0 ((3 # 2) * horizon) then Ok (-1)
  else
    x0' ← getitem x 0;
    if Qltb (1 - (3 # 2) * horizon) x0' then Ok 1 else Ok bnd.

Definition is_forces_boundary (horizon : Q) (x : list Q) : list Z :=
  [2; 2; 2].

(** The two statements of [main] that set the sides of the model:
    [model.lhs = np.nonzero(model.coords[:, 0] < 1.5*model.horizon)] and
    [model.rhs = np.nonzero(model.coords[:, 0] > 1.0 - 1.5*model.horizon)]. *)
Definition main_sides (coords : ndarray) (horizon : Q) : result Model :=
  xs ← getcol coords 0;
  let lhs := nonzero (map (fun x0 => Qltb x0 ((3 # 2) * horizon)) xs) in
  xs' ← getcol coords 0;
  let rhs := nonzero (map (fun x0 => Qltb (1 - (3 # 2) * horizon) x0) xs') in
  Ok {| lhs := lhs; rhs := rhs |}.

End Example1.

(** * Specification-level definitions

    The notions the specification uses to talk about the code above. *)

Import Utilities Numpy Example1.

(** ** The ramp: feasibility and the least build time *)

(** Equality of coefficient triples as floats. *)
Definition vec3_eq (u v : vec3) : Prop :=
  let '(u1, u2, u3) := u in
  let '(v1, v2, v3) := v in
  (u1 == v1 /\ u2 == v2 /\ u3 == v3)%Q.

(** The matrix [A] that [_calc_midpoint_gradient] builds for [T]. *)
Definition system_matrix (T : Z) : mat3 :=
  ((inject_Z (1 * T ^ 5), inject_Z (1 * T ^ 4), inject_Z (1 * T ^ 3)),
   (inject_Z (20 * T ^ 3), inject_Z (12 * T ^ 2), inject_Z (6 * T)),
   (inject_Z (5 * T ^ 4), inject_Z (4 * T ^ 3), inject_Z (3 * T ^ 2))).

(** The solution of the system in closed form: the quintic
    [D * (6 s^5 - 15 s^4 + 10 s^3)] with [s = t / T]. *)
Definition smooth_coefficients (T : Z) (D : Q) : vec3 :=
  (6 * D / inject_Z T ^ 5, - (15) * D / inject_Z T ^ 4,
   10 * D / inject_Z T ^ 3)%Q.

(** [T] is feasible for [D] and [Rmax]: the system is solvable at [T] and
    the midpoint gradient of its solution is at most [Rmax]. *)
Definition feasible (D Rmax : Q) (T : Z) : Prop :=
  exists m c, _calc_midpoint_gradient T D = Ok (m, c) /\ (m <= Rmax)%Q.

(** [T] is the least non-negative feasible integer. *)
Definition minimal_feasible (D Rmax : Q) (T : Z) : Prop :=
  0 <= T /\ feasible D Rmax T
  /\ forall T', 0 <= T' < T -> ~ feasible D Rmax T'.

(** The least feasible time as a number: the midpoint gradient at [T] is
    [15 D / (8 T)]. *)
Definition min_build_time (D Rmax : Q) : Z :=
  Qceiling (15 * D / (8 * Rmax)).

(** ** The ramp: calls of [calc_displacement_scale] in sequence *)

Section Ramp.
Variables (coefficients : vec3) (max_displacement : Q) (build_time : Z)
          (max_displacement_rate build_displacement : Q).

Definition rate_at (step ease_off : Z) : Q * Z :=
  calc_displacement_scale coefficients max_displacement build_time
    max_displacement_rate step build_displacement ease_off.

(** The results of the calls at [steps], in order, each call receiving the
    [ease_off] that the previous one returned. *)
Fixpoint ramp_trace (steps : list Z) (ease_off : Z) : list (Q * Z) :=
  match steps with
  | [] => []
  | step :: steps' =>
      let r := rate_at step ease_off in
      r :: ramp_trace steps' (snd r)
  end.

(** The values of [ease_off] that such a sequence can reach from 0. *)
Inductive reachable_ease_off : Z -> Prop :=
| reachable_initial : reachable_ease_off 0
| reachable_next (ease_off step : Z) :
    reachable_ease_off ease_off -> 0 <= step ->
    reachable_ease_off (snd (rate_at step ease_off)).

End Ramp.

(** How many times consecutive elements of a list differ. *)
Fixpoint changes (l : list Z) : nat :=
  match l with
  | a :: (b :: _) as l' => ((if (a =? b)%Z then 0 else 1) + changes l')%nat
  | _ => 0%nat
  end.


(** ** The example *)

(** The line [x = 0.5 + 1e-6] of [is_crack]. *)
Definition cut_line : Q := (1 # 2) + (1 # 1000000).

(** The row of a particle after [boundary_function], from the row before,
    given whether the particle is indexed by [lhs] and by [rhs]: the four
    assignments in program order. *)
Definition load_row (in_lhs in_rhs : bool) (step : Z) (r : list Q) : list Q :=
  let r1 := if in_lhs then fill_slice 1 3 0%Q r else r in
  let r2 := if in_rhs then fill_slice 1 3 0%Q r1 else r1 in
  let r3 := if in_lhs then <[0%nat := (- extension step)%Q]> r2 else r2 in
  if in_rhs then <[0%nat := extension step]> r3 else r3.


(** ** The array store, runs of the ramp and loaded rows *)

(** The array stored under a path and a dataset name, if any. *)
Definition stored {array : Type} (fs : gmap string (gmap string array))
           (path dataset : string) : option array :=
  fs !! path ≫= fun hf => hf !! dataset.

(** Component [j] of a loaded row, from the component [x] before. *)
Definition loaded_value (in_rhs : bool) (step : Z) (j : nat) (x : Q) : Q :=
  match j with
  | 0%nat => if in_rhs then extension step else (- extension step)%Q
  | 1%nat | 2%nat => 0%Q
  | _ => x
  end.

(** ** The ramp over any arithmetic: the required build time and runs *)

Section RampFP.
Context {F : Type} {float : Float F}.
Local Open Scope fp_scope.

Variable solve : FP.mat3 -> FP.vec3 F -> result (FP.vec3 F).

(** The iteration of the search at [T] does not end the search: the solve
    returns a midpoint gradient above [Rmax], or it raises [LinAlgError]
    and the gradient of the iteration before stays. *)
Definition continues (D Rmax : F) (T : Z) : Prop :=
  FP._calc_midpoint_gradient solve T D = Raise LinAlgError
  \/ exists m c, FP._calc_midpoint_gradient solve T D = Ok (m, c)
                 /\ (Rmax ≺ m) = true.

(** The required build time, as the code finds it: the first [T >= 0] at
    which the solve returns a midpoint gradient not above [Rmax], with the
    coefficients [c] solved there. *)
Definition required_build_time (D Rmax : F) (T : Z) (c : FP.vec3 F) : Prop :=
  0 <= T
  /\ (exists m, FP._calc_midpoint_gradient solve T D = Ok (m, c)
                /\ (Rmax ≺ m) = false)
  /\ forall T', 0 <= T' < T -> continues D Rmax T'.

(** The displacement at [step] of the constant-rate phase, as the code adds
    it up: the linear displacement [(step - build_time / 2) *
    max_displacement_rate], then the two halves of the build-phase
    displacement. *)
Definition total_displacement (build_time : Z)
           (max_displacement_rate build_displacement : F) (step : Z) : F :=
  (of_int step ⊖ int_truediv build_time 2) ⊗ max_displacement_rate
  ⊕ build_displacement ⊘ of_int 2 ⊕ build_displacement ⊘ of_int 2.

(** [step] is in the constant-rate phase and the displacement reaches
    [max_displacement] there. *)
Definition reaches_target (max_displacement : F) (build_time : Z)
           (max_displacement_rate build_displacement : F) (step : Z) : bool :=
  negb (int_lt step (int_truediv build_time 2))
  && negb (total_displacement build_time max_displacement_rate
             build_displacement step ≺ max_displacement).

(** The results of the calls at [steps], in order, each call receiving the
    [ease_off] that the previous one returned. *)
Fixpoint run (coefficients : FP.vec3 F) (max_displacement : F)
         (build_time : Z) (max_displacement_rate build_displacement : F)
         (steps : list Z) (ease_off : Z) : list (F * Z) :=
  match steps with
  | [] => []
  | step :: steps' =>
      let r := FP.calc_displacement_scale coefficients max_displacement
                 build_time max_displacement_rate step build_displacement
                 ease_off in
      r :: run coefficients max_displacement build_time
             max_displacement_rate build_displacement steps' (snd r)
  end.

End RampFP.

(** ** Proof automation *)

(** Rewrite [a] into [b], two floats that [tac] proves equal. *)
Tactic Notation "qreplace" constr(a) "with" constr(b) "by" tactic3(tac) :=
  let E := fresh "E" in
  assert (E : (a == b)%Q) by tac; rewrite E; clear E.


(** Decide a closed comparison of floats by evaluation. *)
Ltac qcompute := vm_compute; (reflexivity || discriminate).

(** * Theorems *)

(** ** Comparisons and arithmetic on floats *)

Local Open Scope Q_scope.

Lemma Qltb_lt (x y : Q) : Qltb x y = true <-> x < y.
Proof. unfold Qltb, Qlt. apply Z.ltb_lt. Qed.

Lemma Qltb_ge (x y : Q) : Qltb x y = false <-> y <= x.
Proof. unfold Qltb, Qle. apply Z.ltb_ge. Qed.

Lemma Qltb_spec (x y : Q) : reflect (x < y) (Qltb x y).
Proof.
  destruct (Qltb x y) eqn:E; constructor.
  - by apply Qltb_lt.
  - apply Qltb_ge in E. by apply Qle_not_lt.
Qed.

Lemma Qltb_proper (x x' y y' : Q) :
  (x == x')%Q -> (y == y')%Q -> Qltb x y = Qltb x' y'.
Proof.
  intros Hx Hy.
  destruct (Qltb_spec x y) as [H|H], (Qltb_spec x' y') as [H'|H']; try done.
  - exfalso. apply H'. by rewrite <- Hx, <- Hy.
  - exfalso. apply H. by rewrite Hx, Hy.
Qed.

Lemma inject_Z_pos (T : Z) : (0 < T)%Z -> 0 < inject_Z T.
Proof. unfold Qlt. simpl. lia. Qed.

Lemma inject_Z_nonzero (T : Z) : T <> 0%Z -> ~ inject_Z T == 0.
Proof. unfold Qeq. simpl. lia. Qed.


Lemma inject_Z_pow2 (T : Z) : inject_Z (T ^ 2) = inject_Z T * inject_Z T.
Proof.
  replace (T ^ 2)%Z with (T * T)%Z by ring. by rewrite inject_Z_mult.
Qed.

Lemma inject_Z_pow3 (T : Z) :
  inject_Z (T ^ 3) = inject_Z T * inject_Z T * inject_Z T.
Proof.
  replace (T ^ 3)%Z with (T * T * T)%Z by ring. by rewrite !inject_Z_mult.
Qed.

Lemma inject_Z_pow4 (T : Z) :
  inject_Z (T ^ 4) = inject_Z T * inject_Z T * inject_Z T * inject_Z T.
Proof.
  replace (T ^ 4)%Z with (T * T * T * T)%Z by ring.
  by rewrite !inject_Z_mult.
Qed.

Lemma inject_Z_pow5 (T : Z) :
  inject_Z (T ^ 5)
  = inject_Z T * inject_Z T * inject_Z T * inject_Z T * inject_Z T.
Proof.
  replace (T ^ 5)%Z with (T * T * T * T * T)%Z by ring.
  by rewrite !inject_Z_mult.
Qed.

Lemma Qsquare_nonneg (q : Q) : 0 <= q ^ 2.
Proof. qreplace (q ^ 2) with (q * q) by ring. nra. Qed.


Lemma Qpow5_pos (q : Q) : 0 < q -> 0 < q ^ 5.
Proof.
  intros Hq. qreplace (q ^ 5) with (q * (q * q) * (q * q)) by ring.
  assert (0 < q * q) by (apply Qmult_lt_0_compat; done).
  repeat apply Qmult_lt_0_compat; done.
Qed.

Lemma Qpow9_nonzero (q : Q) : ~ q == 0 -> ~ 2 * q ^ 9 == 0.
Proof.
  intros Hq H.
  assert (H1 : 1 == (2 * q ^ 9) / (2 * q ^ 9)) by (field; done).
  rewrite H in H1. unfold Qdiv in H1. rewrite Qmult_0_l in H1. lra.
Qed.

Lemma Qdiv_nonneg (n d : Q) : 0 <= n -> 0 < d -> 0 <= n / d.
Proof. intros Hn Hd. apply Qle_shift_div_l; [done|]. lra. Qed.

Lemma Qdiv_le_iff (n d r : Q) : 0 < d -> n / d <= r <-> n <= r * d.
Proof.
  intros Hd. split; intros H.
  - assert (E : n == n / d * d) by (field; lra).
    rewrite E. apply Qmult_le_compat_r; lra.
  - by apply Qle_shift_div_r.
Qed.

(** ** [np.linalg.solve] as Cramer's rule *)

(** A returned [x] solves the system, and a singular matrix raises. *)
Lemma linalg_solve_sound (A : mat3) (b x : vec3) :
  linalg_solve A b = Ok x -> vec3_eq (mat_vec A x) b.
Proof.
  unfold linalg_solve. destruct (Qeq_bool (det3 A) 0) eqn:E; [done|].
  intros [= <-]. apply Qeq_bool_neq in E.
  destruct A as [[[[a11 a12] a13] [[a21 a22] a23]] [[a31 a32] a33]].
  destruct b as [[b1 b2] b3].
  unfold vec3_eq, mat_vec, replace_col, det3 in *.
  repeat split; field; exact E.
Qed.

Lemma linalg_solve_singular (A : mat3) (b : vec3) :
  det3 A == 0 -> linalg_solve A b = Raise LinAlgError.
Proof.
  intros H. unfold linalg_solve. apply Qeq_eq_bool in H. by rewrite H.
Qed.

Lemma vec3_eq_sym (u v : vec3) : vec3_eq u v -> vec3_eq v u.
Proof.
  destruct u as [[u1 u2] u3], v as [[v1 v2] v3]. simpl.
  intros (H1 & H2 & H3). by rewrite H1, H2, H3.
Qed.

Lemma vec3_eq_trans (u v w : vec3) :
  vec3_eq u v -> vec3_eq v w -> vec3_eq u w.
Proof.
  destruct u as [[u1 u2] u3], v as [[v1 v2] v3], w as [[w1 w2] w3]. simpl.
  intros (H1 & H2 & H3) (H1' & H2' & H3').
  by rewrite H1, H2, H3, H1', H2', H3'.
Qed.

(** ** The linear system of [_calc_midpoint_gradient] *)

Lemma calc_midpoint_gradient_unfold (T : Z) (D : Q) :
  _calc_midpoint_gradient T D =
  (x ← linalg_solve (system_matrix T) (D, 0, 0);
   Ok (quintic_rate x (inject_Z T / 2), x)).
Proof. reflexivity. Qed.

(** The entries of [system_matrix] as polynomials in [inject_Z T]. *)
Ltac push_inject :=
  rewrite ?inject_Z_mult, ?inject_Z_pow2, ?inject_Z_pow3, ?inject_Z_pow4,
    ?inject_Z_pow5;
  change (inject_Z 1) with 1; change (inject_Z 20) with 20;
  change (inject_Z 12) with 12; change (inject_Z 6) with 6;
  change (inject_Z 5) with 5; change (inject_Z 4) with 4;
  change (inject_Z 3) with 3.

(** The determinant is [2 T^9]: the system is singular at [T = 0] only. *)
Lemma det3_system (T : Z) : det3 (system_matrix T) == 2 * inject_Z T ^ 9.
Proof. unfold det3, system_matrix. push_inject. ring. Qed.

Lemma det3_col0 (T : Z) (D : Q) :
  det3 (replace_col 0 (system_matrix T) (D, 0, 0))
  == 12 * D * inject_Z T ^ 4.
Proof. unfold det3, replace_col, system_matrix. push_inject. ring. Qed.

Lemma det3_col1 (T : Z) (D : Q) :
  det3 (replace_col 1 (system_matrix T) (D, 0, 0))
  == - (30) * D * inject_Z T ^ 5.
Proof. unfold det3, replace_col, system_matrix. push_inject. ring. Qed.

Lemma det3_col2 (T : Z) (D : Q) :
  det3 (replace_col 2 (system_matrix T) (D, 0, 0))
  == 20 * D * inject_Z T ^ 6.
Proof. unfold det3, replace_col, system_matrix. push_inject. ring. Qed.

Lemma solve_system (T : Z) (D : Q) :
  T <> 0%Z ->
  exists x, linalg_solve (system_matrix T) (D, 0, 0) = Ok x
            /\ vec3_eq x (smooth_coefficients T D).
Proof.
  intros HT. pose proof (inject_Z_nonzero T HT) as Ht.
  unfold linalg_solve.
  destruct (Qeq_bool (det3 (system_matrix T)) 0) eqn:E.
  - apply Qeq_bool_eq in E. rewrite det3_system in E.
    exfalso. by apply (Qpow9_nonzero (inject_Z T) Ht).
  - eexists. split; [reflexivity|].
    unfold vec3_eq, smooth_coefficients.
    rewrite det3_col0, det3_col1, det3_col2, det3_system.
    repeat split; field; done.
Qed.


Lemma calc_midpoint_gradient_solves (T : Z) (D : Q) :
  T <> 0%Z ->
  exists c,
    _calc_midpoint_gradient T D = Ok (quintic_rate c (inject_Z T / 2), c)
    /\ vec3_eq c (smooth_coefficients T D).
Proof.
  intros HT. destruct (solve_system T D HT) as (x & Hx & Heq).
  exists x. split; [|done].
  rewrite calc_midpoint_gradient_unfold, Hx. reflexivity.
Qed.

(** ** The smooth quintic and its rate *)

Lemma quintic_rate_proper (c c' : vec3) (t : Q) :
  vec3_eq c c' -> quintic_rate c t == quintic_rate c' t.
Proof.
  destruct c as [[a b] c], c' as [[a' b'] c']. simpl.
  intros (Ha & Hb & Hc). by rewrite Ha, Hb, Hc.
Qed.

(** The rate is [30 D t^2 (T - t)^2 / T^5]. *)
Lemma quintic_rate_smooth (T : Z) (D t : Q) :
  T <> 0%Z ->
  quintic_rate (smooth_coefficients T D) t
  == 30 * D * (t * (inject_Z T - t)) ^ 2 / inject_Z T ^ 5.
Proof.
  intros HT. pose proof (inject_Z_nonzero T HT).
  unfold quintic_rate, smooth_coefficients. field. done.
Qed.

(** At the midpoint it is [15 D / (8 T)]. *)
Lemma midpoint_gradient_smooth (T : Z) (D : Q) :
  T <> 0%Z ->
  quintic_rate (smooth_coefficients T D) (inject_Z T / 2)
  == 15 * D / (8 * inject_Z T).
Proof.
  intros HT. pose proof (inject_Z_nonzero T HT).
  unfold quintic_rate, smooth_coefficients. field. done.
Qed.

(** The three rows of the system: at [t = T] the position is [D], and the
    acceleration and the rate are 0. *)
Lemma smooth_coefficients_constraints (T : Z) (D : Q) :
  T <> 0%Z ->
  let '(a, b, c) := smooth_coefficients T D in
  let k := inject_Z T in
  a * k ^ 5 + b * k ^ 4 + c * k ^ 3 == D
  /\ 20 * a * k ^ 3 + 12 * b * k ^ 2 + 6 * c * k == 0
  /\ quintic_rate (a, b, c) k == 0.
Proof.
  intros HT. pose proof (inject_Z_nonzero T HT).
  unfold smooth_coefficients, quintic_rate. repeat split; field; done.
Qed.

(** It is never negative. *)
Lemma quintic_rate_smooth_nonneg (T : Z) (D t : Q) :
  (0 < T)%Z -> 0 <= D ->
  0 <= quintic_rate (smooth_coefficients T D) t.
Proof.
  intros HT HD. rewrite quintic_rate_smooth by lia.
  apply Qdiv_nonneg; [|by apply Qpow5_pos, inject_Z_pos].
  pose proof (Qsquare_nonneg (t * (inject_Z T - t))). nra.
Qed.

(** On [0, T] it is at most the midpoint gradient. *)
Lemma quintic_rate_smooth_le_midpoint (T : Z) (D t : Q) :
  (0 < T)%Z -> 0 <= D -> 0 <= t <= inject_Z T ->
  quintic_rate (smooth_coefficients T D) t <= 15 * D / (8 * inject_Z T).
Proof.
  intros HT HD [Ht0 HtT]. rewrite quintic_rate_smooth by lia.
  pose proof (inject_Z_pos T HT) as Hpos.
  pose proof (Qpow5_pos _ Hpos) as Hpos5.
  set (k := inject_Z T) in *.
  apply Qle_shift_div_r; [done|].
  qreplace (15 * D / (8 * k) * k ^ 5) with (30 * D * (k * k / 4) ^ 2)
    by (field; lra).
  set (w := t * (k - t)).
  assert (Hw0 : 0 <= w) by (unfold w; nra).
  assert (Hw1 : w <= k * k / 4).
  { unfold w. assert (0 <= (t - k / 2) ^ 2) by apply Qsquare_nonneg.
    qreplace (k * k / 4) with (t * (k - t) + (t - k / 2) ^ 2) by field.
    lra. }
  assert (Hsq : w ^ 2 <= (k * k / 4) ^ 2).
  { qreplace (w ^ 2) with (w * w) by ring.
    qreplace ((k * k / 4) ^ 2) with ((k * k / 4) * (k * k / 4)) by ring.
    nra. }
  nra.
Qed.

(** Two consecutive times have different coefficients. *)
Lemma smooth_coefficients_differ (T : Z) (D : Q) :
  (0 < T)%Z -> 0 < D ->
  ~ vec3_eq (smooth_coefficients T D) (smooth_coefficients (T + 1) D).
Proof.
  intros HT HD (_ & _ & H).
  pose proof (inject_Z_pos T HT) as Hk.
  rewrite inject_Z_plus in H. change (inject_Z 1) with 1 in H.
  set (k := inject_Z T) in *.
  assert (Hk3 : 0 < k ^ 3).
  { qreplace (k ^ 3) with (k * (k * k)) by ring.
    repeat apply Qmult_lt_0_compat; done. }
  assert (Hk13 : k ^ 3 < (k + 1) ^ 3).
  { qreplace ((k + 1) ^ 3) with (k ^ 3 + (3 * (k * k) + 3 * k + 1)) by ring.
    assert (0 < k * k) by (apply Qmult_lt_0_compat; done). lra. }
  assert (E1 : 10 * D == 10 * D / k ^ 3 * k ^ 3) by (field; lra).
  assert (E2 : 10 * D == 10 * D / (k + 1) ^ 3 * (k + 1) ^ 3) by (field; lra).
  rewrite <- H in E2.
  assert (Hy : 0 < 10 * D / k ^ 3) by (apply Qlt_shift_div_l; lra).
  set (y := 10 * D / k ^ 3) in *.
  assert (y * k ^ 3 < y * (k + 1) ^ 3) by (apply Qmult_lt_l; done).
  lra.
Qed.

(** ** Feasible times *)

Lemma midpoint_gradient_value (T : Z) (D m : Q) (c : vec3) :
  T <> 0%Z -> _calc_midpoint_gradient T D = Ok (m, c) ->
  m == 15 * D / (8 * inject_Z T) /\ vec3_eq c (smooth_coefficients T D).
Proof.
  intros HT H.
  destruct (calc_midpoint_gradient_solves T D HT) as (c' & Hc & Heq).
  rewrite Hc in H. injection H as <- <-. split; [|done].
  rewrite (quintic_rate_proper _ _ _ Heq). by apply midpoint_gradient_smooth.
Qed.

Lemma feasible_iff (D Rmax : Q) (T : Z) :
  (0 < T)%Z -> feasible D Rmax T <-> 15 * D <= 8 * Rmax * inject_Z T.
Proof.
  intros HT. pose proof (inject_Z_pos T HT) as Hpos.
  assert (HT0 : T <> 0%Z) by lia.
  split.
  - intros (m & c & Hmc & Hle).
    destruct (midpoint_gradient_value T D m c HT0 Hmc) as [Hm _].
    rewrite Hm in Hle. apply Qdiv_le_iff in Hle; lra.
  - intros Hle.
    destruct (calc_midpoint_gradient_solves T D HT0) as (c & Hc & Heq).
    eexists _, c. split; [exact Hc|].
    rewrite (quintic_rate_proper _ _ _ Heq), midpoint_gradient_smooth by done.
    apply Qdiv_le_iff; lra.
Qed.

Lemma not_feasible_0 (D Rmax : Q) : ~ feasible D Rmax 0.
Proof. intros (m & c & H & _). discriminate H. Qed.

Lemma min_build_time_pos (D Rmax : Q) :
  0 < D -> 0 < Rmax -> (1 <= min_build_time D Rmax)%Z.
Proof.
  intros HD HR. unfold min_build_time.
  assert (H : 0 < 15 * D / (8 * Rmax)).
  { apply Qlt_shift_div_l; lra. }
  pose proof (Qle_ceiling (15 * D / (8 * Rmax))) as Hc.
  assert (Hlt : 0 < inject_Z (Qceiling (15 * D / (8 * Rmax)))) by lra.
  unfold Qlt in Hlt. simpl in Hlt. lia.
Qed.

Lemma min_build_time_feasible (D Rmax : Q) :
  0 < D -> 0 < Rmax -> feasible D Rmax (min_build_time D Rmax).
Proof.
  intros HD HR. pose proof (min_build_time_pos D Rmax HD HR) as Hk.
  apply feasible_iff; [lia|].
  pose proof (Qle_ceiling (15 * D / (8 * Rmax))) as Hc.
  fold (min_build_time D Rmax) in Hc.
  apply Qdiv_le_iff in Hc; lra.
Qed.

Lemma min_build_time_least (D Rmax : Q) (T : Z) :
  0 < D -> 0 < Rmax -> (0 <= T < min_build_time D Rmax)%Z ->
  ~ feasible D Rmax T.
Proof.
  intros HD HR [HT0 HTk] Hf.
  destruct (Z.eq_dec T 0%Z) as [->|HTne]; [by apply not_feasible_0 in Hf|].
  apply feasible_iff in Hf; [|lia].
  pose proof (Qceiling_lt (15 * D / (8 * Rmax))) as Hc.
  fold (min_build_time D Rmax) in Hc.
  assert (Hle : inject_Z T <= inject_Z (min_build_time D Rmax - 1)).
  { rewrite <- Zle_Qle. lia. }
  assert (H : 15 * D / (8 * Rmax) <= inject_Z T).
  { apply Qdiv_le_iff; lra. }
  lra.
Qed.

Lemma min_build_time_minimal (D Rmax : Q) :
  0 < D -> 0 < Rmax -> minimal_feasible D Rmax (min_build_time D Rmax).
Proof.
  intros HD HR. pose proof (min_build_time_pos D Rmax HD HR).
  split; [lia|]. split; [by apply min_build_time_feasible|].
  intros T' HT'. by apply min_build_time_least.
Qed.

Lemma minimal_feasible_unique (D Rmax : Q) (T T' : Z) :
  minimal_feasible D Rmax T -> minimal_feasible D Rmax T' -> T = T'.
Proof.
  intros (H0 & Hf & Hleast) (H0' & Hf' & Hleast').
  destruct (Z.lt_trichotomy T T') as [Hlt|[Heq|Hgt]]; [|done|].
  - exfalso. apply (Hleast' T); [lia|done].
  - exfalso. apply (Hleast T'); [lia|done].
Qed.

(** ** The search loop of [calc_build_time] *)

Local Open Scope Z_scope.

Lemma gradient_gt_Fin (m r : Q) : gradient_gt (Fin m) r = false <-> (m <= r)%Q.
Proof. simpl. apply Qltb_ge. Qed.

(** Every run of the loop ends: from the head at [build_time], at most
    [steps - build_time + 1] iterations follow. *)
Lemma calc_build_time_loop_total (D Rmax : Q) (steps : Z) (fuel : nat) :
  forall build_time m c,
    (Z.to_nat (steps - build_time) < fuel)%nat ->
    calc_build_time_loop fuel D Rmax steps build_time m c <> None.
Proof.
  induction fuel as [|fuel IH]; intros build_time m c Hfuel; [lia|].
  simpl. destruct (gradient_gt m Rmax).
  - destruct (_calc_midpoint_gradient build_time D) as [[m' c']|[]];
      try done;
      (destruct (build_time + 1 >? steps) eqn:E; [done|apply IH; lia]).
  - by destruct c.
Qed.

(** [calc_build_time] always ends: with a result or by raising. *)
Lemma calc_build_time_total (D Rmax : Q) (steps : Z) :
  calc_build_time D Rmax steps <> None.
Proof. apply calc_build_time_loop_total. lia. Qed.

Lemma calc_build_time_loop_spec (D Rmax : Q) (steps : Z) :
  (0 < D)%Q -> (0 < Rmax)%Q ->
  forall (n fuel : nat) (j : Z) (m : gradient) (c : option vec3)
         (mk : Q) (ck : vec3),
    let k := min_build_time D Rmax in
    _calc_midpoint_gradient k D = Ok (mk, ck) ->
    j = k - Z.of_nat n -> 1 <= j <= steps ->
    gradient_gt m Rmax = true ->
    (Z.to_nat (steps - j) < fuel)%nat ->
    calc_build_time_loop fuel D Rmax steps j m c
    = Some (if k <? steps then Ok (k + 1, ck) else Raise ValueError).
Proof.
  intros HD HR n. induction n as [|n IH];
    intros fuel j m c mk ck k Hk Hj Hrange Hgt Hfuel.
  - (* j = k: this iteration solves at k, the next one leaves the loop *)
    assert (j = k) as -> by lia.
    destruct fuel as [|fuel]; [lia|]. simpl. rewrite Hgt, Hk.
    destruct (k + 1 >? steps) eqn:E.
    + assert ((k <? steps) = false) as -> by lia. done.
    + assert ((k <? steps) = true) as -> by lia.
      destruct fuel as [|fuel]; [lia|]. simpl.
      assert (Hmk : (mk <= Rmax)%Q).
      { destruct (min_build_time_feasible D Rmax HD HR) as (m' & c' & H' & Hle).
        fold k in H'. rewrite Hk in H'. by injection H' as <- <-. }
      apply Qltb_ge in Hmk. by rewrite Hmk.
  - assert (Hjk : 1 <= j < k) by lia.
    destruct fuel as [|fuel]; [lia|]. simpl. rewrite Hgt.
    destruct (calc_midpoint_gradient_solves j D ltac:(lia)) as (cj & Hcj & _).
    rewrite Hcj.
    destruct (j + 1 >? steps) eqn:E.
    + assert ((k <? steps) = false) as -> by lia. done.
    + apply (IH fuel (j + 1) _ _ mk ck); [done|lia|lia| |lia].
      simpl. apply Qltb_lt. apply Qnot_le_lt. intros Hle.
      apply (min_build_time_least D Rmax j HD HR ltac:(lia)).
      by eexists _, cj.
Qed.

(** What [calc_build_time] computes, for a positive displacement and rate:
    with [k] the least feasible time, it returns [k + 1] and the
    coefficients solved at [k] when [k < steps], and raises otherwise. *)
Lemma calc_build_time_spec (D Rmax : Q) (steps : Z) :
  (0 < D)%Q -> (0 < Rmax)%Q ->
  exists mk ck,
    _calc_midpoint_gradient (min_build_time D Rmax) D = Ok (mk, ck)
    /\ (mk <= Rmax)%Q
    /\ calc_build_time D Rmax steps
       = Some (if min_build_time D Rmax <? steps
               then Ok (min_build_time D Rmax + 1, ck)
               else Raise ValueError).
Proof.
  intros HD HR.
  destruct (min_build_time_feasible D Rmax HD HR) as (mk & ck & Hk & Hle).
  pose proof (min_build_time_pos D Rmax HD HR) as Hpos.
  exists mk, ck. split; [done|]. split; [done|].
  unfold calc_build_time. simpl. change (0 + 1) with 1.
  destruct (1 >? steps) eqn:E.
  - assert ((min_build_time D Rmax <? steps) = false) as -> by lia. done.
  - apply (calc_build_time_loop_spec D Rmax steps HD HR
             (Z.to_nat (min_build_time D Rmax - 1)) _ 1 Inf None mk ck);
      [done|lia|lia|done|lia].
Qed.

(** The example of the specification: for [build_displacement = 0.5],
    [max_displacement_rate = 1e-4] and [steps = 1000] the least feasible
    time is 9375, and the call raises. *)
Lemma calc_build_time_example :
  min_build_time (1 # 2) (1 # 10000) = 9375
  /\ calc_build_time (1 # 2) (1 # 10000) 1000 = Some (Raise ValueError).
Proof.
  split; [reflexivity|].
  destruct (calc_build_time_spec (1 # 2) (1 # 10000) 1000 eq_refl eq_refl)
    as (mk & ck & _ & _ & Hrun).
  exact Hrun.
Qed.

(** ** What [calc_build_time] returns *)

(** C1.  For a positive displacement and a positive rate, what
    [calc_build_time] returns is not the least feasible time but its
    successor: the least feasible time is [T - 1], the returned
    coefficients are the ones solved at [T - 1], [T] itself is not the
    least feasible time, and the coefficients are not the ones solved
    at [T]. *)
Theorem calc_build_time_returns_successor
        (D Rmax : Q) (steps T : Z) (c : vec3) :
  (0 < D)%Q -> (0 < Rmax)%Q ->
  calc_build_time D Rmax steps = Some (Ok (T, c)) ->
  minimal_feasible D Rmax (T - 1)
  /\ (exists m, _calc_midpoint_gradient (T - 1) D = Ok (m, c) /\ (m <= Rmax)%Q)
  /\ ~ minimal_feasible D Rmax T
  /\ (forall m, _calc_midpoint_gradient T D <> Ok (m, c)).
Proof.
  intros HD HR Hret.
  destruct (calc_build_time_spec D Rmax steps HD HR)
    as (mk & ck & Hk & Hle & Hrun).
  pose proof (min_build_time_pos D Rmax HD HR) as Hpos.
  pose proof (min_build_time_minimal D Rmax HD HR) as Hmin.
  rewrite Hrun in Hret.
  destruct (min_build_time D Rmax <? steps); [|done].
  injection Hret as <- <-.
  replace (min_build_time D Rmax + 1 - 1) with (min_build_time D Rmax) by lia.
  split; [done|]. split; [by exists mk|]. split.
  - intros Hmin'. pose proof (minimal_feasible_unique _ _ _ _ Hmin Hmin'). lia.
  - intros m Hm.
    apply midpoint_gradient_value in Hk as [_ Hck]; [|lia].
    apply midpoint_gradient_value in Hm as [_ Hck']; [|lia].
    apply (smooth_coefficients_differ (min_build_time D Rmax) D); [lia|done|].
    eapply vec3_eq_trans; [apply vec3_eq_sym; exact Hck|exact Hck'].
Qed.

Lemma calc_build_time_returns_successor_witness :
  (0 < 1)%Q /\ (0 < 1)%Q
  /\ calc_build_time 1 1 10
     = Some (Ok (3, (192 # 1024, -960 # 1024, 1280 # 1024)%Q))
  /\ minimal_feasible 1 1 (3 - 1)
  /\ (exists m, _calc_midpoint_gradient (3 - 1) 1
                = Ok (m, (192 # 1024, -960 # 1024, 1280 # 1024)%Q)
                /\ (m <= 1)%Q)
  /\ ~ minimal_feasible 1 1 3
  /\ (forall m, _calc_midpoint_gradient 3 1
                <> Ok (m, (192 # 1024, -960 # 1024, 1280 # 1024)%Q)).
Proof.
  split; [reflexivity|]. split; [reflexivity|]. split; [reflexivity|].
  apply (calc_build_time_returns_successor 1 1 10); reflexivity.
Defined.

(** ** The exact model is the model over [Float] at the rationals *)

Lemma calc_midpoint_gradient_exact (T : Z) (D : Q) :
  FP._calc_midpoint_gradient exact_solve T D = _calc_midpoint_gradient T D.
Proof.
  unfold FP._calc_midpoint_gradient, _calc_midpoint_gradient, exact_solve.
  destruct (linalg_solve _ _) as [[[a b] c]|e]; reflexivity.
Qed.

Lemma calc_build_time_loop_exact (D Rmax : Q) (steps : Z) (fuel : nat) :
  forall build_time m c,
    FP.calc_build_time_loop exact_solve fuel D Rmax steps build_time
      (gradient_exact m) c
    = calc_build_time_loop fuel D Rmax steps build_time m c.
Proof.
  induction fuel as [|fuel IH]; intros j m c; [done|].
  cbn [FP.calc_build_time_loop calc_build_time_loop].
  rewrite calc_midpoint_gradient_exact.
  assert (Hgt : FP.gradient_gt (gradient_exact m) Rmax = gradient_gt m Rmax)
    by (by destruct m).
  rewrite Hgt. destruct (gradient_gt m Rmax); [|done].
  destruct (_calc_midpoint_gradient j D) as [[m' c']|[]]; try done;
    (destruct (j + 1 >? steps); [done|]).
  - apply (IH (j + 1) (Fin m') (Some c')).
  - apply IH.
Qed.

Lemma calc_build_time_exact (D Rmax : Q) (steps : Z) :
  FP.calc_build_time exact_solve D Rmax steps = calc_build_time D Rmax steps.
Proof. apply (calc_build_time_loop_exact D Rmax steps _ 0 Inf None). Qed.

Lemma calc_displacement_scale_exact (coefficients : vec3)
      (max_displacement : Q) (build_time : Z) (max_displacement_rate : Q)
      (step : Z) (build_displacement : Q) (ease_off : Z) :
  let r := FP.calc_displacement_scale coefficients max_displacement
             build_time max_displacement_rate step build_displacement
             ease_off in
  let r' := calc_displacement_scale coefficients max_displacement build_time
              max_displacement_rate step build_displacement ease_off in
  (fst r == fst r')%Q /\ snd r = snd r'.
Proof.
  destruct coefficients as [[a b] c].
  unfold FP.calc_displacement_scale, calc_displacement_scale, quintic_rate.
  cbn [int_lt int_truediv gt_int of_int fadd fsub fmul fdiv fpow flt literal
       exact].
  change (inject_Z 2) with 2%Q.
  destruct (Qltb (inject_Z step) (inject_Z build_time / 2)); cbn [fst snd].
  - split; [|done]. rewrite inject_Z_pow4, inject_Z_pow3, inject_Z_pow2.
    change (inject_Z 5) with 5%Q. change (inject_Z 4) with 4%Q.
    change (inject_Z 3) with 3%Q. ring.
  - destruct (negb (ease_off =? 0)); cbn [fst snd].
    + assert (Ht : (inject_Z (step - ease_off) + inject_Z build_time / 2
                    == inject_Z step - inject_Z ease_off
                       + inject_Z build_time / 2)%Q).
      { unfold Z.sub. rewrite inject_Z_plus, inject_Z_opp. ring. }
      rewrite (Qltb_proper _ _ _ _ (Qeq_refl (inject_Z build_time)) Ht).
      destruct (Qltb (inject_Z build_time) _); cbn [fst snd]; [done|].
      split; [|done]. change (inject_Z 5) with 5%Q.
      change (inject_Z 4) with 4%Q. change (inject_Z 3) with 3%Q.
      by rewrite Ht.
    + by destruct (Qltb _ max_displacement).
Qed.

(** ** The search loop over any arithmetic and any solver *)

Section BuildTimeFP.
Context {F : Type} {float : Float F}.
Local Open Scope fp_scope.

Variable solve : FP.mat3 -> FP.vec3 F -> result (FP.vec3 F).
Variables (D Rmax : F) (steps : Z).

(** Every run of the loop ends. *)
Lemma calc_build_time_loop_ends (fuel : nat) :
  forall build_time m c,
    (Z.to_nat (steps - build_time) < fuel)%nat ->
    FP.calc_build_time_loop solve fuel D Rmax steps build_time m c <> None.
Proof.
  induction fuel as [|fuel IH]; intros build_time m c Hfuel; [lia|].
  simpl. destruct (FP.gradient_gt m Rmax).
  - destruct (FP._calc_midpoint_gradient solve build_time D)
      as [[m' c']|[]]; try done;
      (destruct (build_time + 1 >? steps) eqn:E; [done|apply IH; lia]).
  - by destruct c.
Qed.

(** From the loop head at [j], up to the required build time [k]. *)
Lemma calc_build_time_loop_required (k : Z) (ck : FP.vec3 F) :
  required_build_time solve D Rmax k ck ->
  forall (n fuel : nat) (j : Z) (m : FP.gradient F) (c : option (FP.vec3 F)),
    j = k - Z.of_nat n -> 0 <= j ->
    FP.gradient_gt m Rmax = true ->
    (Z.to_nat (steps - j) < fuel)%nat ->
    FP.calc_build_time_loop solve fuel D Rmax steps j m c
    = Some (if k <? steps then Ok (k + 1, ck) else Raise ValueError).
Proof.
  intros (Hk0 & (mk & Hsolve & Hmk) & Hbefore) n.
  induction n as [|n IH]; intros fuel j m c Hj Hj0 Hgt Hfuel.
  - (* j = k: this iteration solves at k, the next test leaves the loop *)
    assert (j = k) as -> by lia.
    destruct fuel as [|fuel]; [lia|]. simpl. rewrite Hgt, Hsolve.
    destruct (k + 1 >? steps) eqn:E.
    + by assert ((k <? steps) = false) as -> by lia.
    + assert ((k <? steps) = true) as -> by lia.
      destruct fuel as [|fuel]; [lia|]. simpl. by rewrite Hmk.
  - destruct fuel as [|fuel]; [lia|]. simpl. rewrite Hgt.
    destruct (Hbefore j ltac:(lia)) as [Herr|(mj & cj & Hsj & Hgj)].
    + rewrite Herr. destruct (j + 1 >? steps) eqn:E.
      * by assert ((k <? steps) = false) as -> by lia.
      * apply IH; [lia|lia|done|lia].
    + rewrite Hsj. destruct (j + 1 >? steps) eqn:E.
      * by assert ((k <? steps) = false) as -> by lia.
      * apply IH; [lia|lia|done|lia].
Qed.

Lemma calc_build_time_required (k : Z) (ck : FP.vec3 F) :
  inf_gt Rmax = true ->
  required_build_time solve D Rmax k ck ->
  FP.calc_build_time solve D Rmax steps
  = Some (if k <? steps then Ok (k + 1, ck) else Raise ValueError).
Proof.
  intros Hinf Hreq. pose proof Hreq as (Hk0 & _).
  apply (calc_build_time_loop_required k ck Hreq (Z.to_nat k));
    [lia|lia|done|lia].
Qed.

(** What holds at a loop head that is left at once, and of every result
    of the loop. *)
Lemma calc_build_time_loop_result (fuel : nat) :
  forall build_time m c r,
    0 <= build_time ->
    (FP.gradient_gt m Rmax = false ->
     match c with
     | Some c0 =>
         1 <= build_time <= steps
         /\ exists g, FP._calc_midpoint_gradient solve (build_time - 1) D
                      = Ok (g, c0) /\ (Rmax ≺ g) = false
     | None => inf_gt Rmax = false
     end) ->
    FP.calc_build_time_loop solve fuel D Rmax steps build_time m c = Some r ->
    match r with
    | Ok (T, c') =>
        1 <= T <= steps
        /\ exists g, FP._calc_midpoint_gradient solve (T - 1) D = Ok (g, c')
                     /\ (Rmax ≺ g) = false
    | Raise e =>
        e = ValueError
        \/ (e = UnboundLocalError /\ inf_gt Rmax = false)
        \/ (e <> LinAlgError
            /\ exists T, build_time <= T <= Z.max build_time steps
                         /\ FP._calc_midpoint_gradient solve T D = Raise e)
    end.
Proof.
  induction fuel as [|fuel IH]; intros j m c r Hj Hleft; [done|].
  simpl. destruct (FP.gradient_gt m Rmax) eqn:Hgt.
  - destruct (FP._calc_midpoint_gradient solve j D) as [[m' c']|e] eqn:Hs.
    + destruct (j + 1 >? steps) eqn:E; [intros [= <-]; by left|].
      intros Hrun. apply IH in Hrun.
      * destruct r as [[T c'']|e]; [done|].
        destruct Hrun as [->|[[-> Hu]|(Hne & T & HT & Hraise)]];
          [by left|right; by left|].
        right. right. split; [done|]. exists T. split; [lia|done].
      * lia.
      * intros Hm'. replace (j + 1 - 1) with j by lia.
        split; [lia|]. by exists m'.
    + assert (Hraise : forall r0 : result (Z * FP.vec3 F),
                 e <> LinAlgError -> Some (Raise e) = Some r0 ->
                 match r0 with
                 | Ok _ => False
                 | Raise e0 =>
                     e0 <> LinAlgError
                     /\ exists T, j <= T <= Z.max j steps
                                  /\ FP._calc_midpoint_gradient solve T D
                                     = Raise e0
                 end).
      { intros r0 Hne [= <-]. split; [done|]. exists j. split; [lia|done]. }
      destruct e;
        try (intros Hrun; apply Hraise in Hrun; [|done];
             destruct r as [[T c'']|e0]; [done|]; right; by right).
      destruct (j + 1 >? steps) eqn:E; [intros [= <-]; by left|].
      intros Hrun. apply IH in Hrun.
      * destruct r as [[T c'']|e]; [done|].
        destruct Hrun as [->|[[-> Hu]|(Hne & T & HT & Hraise')]];
          [by left|right; by left|].
        right. right. split; [done|]. exists T. split; [lia|done].
      * lia.
      * intros Hm'. congruence.
  - specialize (Hleft eq_refl). destruct c as [c0|].
    + by intros [= <-].
    + intros [= <-]. right. by left.
Qed.

End BuildTimeFP.

(** The required build time, at the exact rationals, is the least feasible
    time. *)
Lemma required_build_time_exact (D Rmax : Q) (k : Z) :
  (exists c, required_build_time exact_solve D Rmax k c)
  <-> minimal_feasible D Rmax k.
Proof.
  unfold required_build_time, minimal_feasible, feasible, continues.
  setoid_rewrite calc_midpoint_gradient_exact. split.
  - intros (c & Hk & (m & Hs & Hm) & Hbefore).
    split; [done|]. split.
    + exists m, c. split; [done|]. by apply Qltb_ge.
    + intros T' HT' (m' & c' & Hs' & Hm').
      destruct (Hbefore T' HT') as [Herr|(m'' & c'' & Hs'' & Hgt)];
        [congruence|].
      rewrite Hs' in Hs''. injection Hs'' as <- <-.
      apply Qltb_lt in Hgt. by apply Qle_not_lt in Hm'.
  - intros (Hk & (m & c & Hs & Hm) & Hleast).
    exists c. split; [done|]. split.
    + exists m. split; [done|]. by apply Qltb_ge.
    + intros T' HT'.
      destruct (Z.eq_dec T' 0) as [->|Hne]; [by left|].
      destruct (calc_midpoint_gradient_solves T' D Hne) as (c' & Hs' & _).
      right. eexists _, c'. split; [exact Hs'|].
      apply Qltb_lt, Qnot_le_lt. intros Hle.
      apply (Hleast T' HT'). by eexists _, c'.
Qed.

(** C2.  For every arithmetic and every solver, with [np.inf] above the
    maximum rate and [k] the required build time, the first time at which
    the solve returns a midpoint gradient that is not above the maximum
    rate: [calc_build_time] raises [ValueError] exactly when [steps <= k],
    hence also when [k] equals the budget and does not exceed it, and
    returns exactly when [k < steps], then [k + 1] with the coefficients
    solved at [k]. *)
Theorem calc_build_time_raises_iff {F : Type} {float : Float F}
        (solve : FP.mat3 -> FP.vec3 F -> result (FP.vec3 F))
        (D Rmax : F) (steps k : Z) (c : FP.vec3 F) :
  inf_gt Rmax = true ->
  required_build_time solve D Rmax k c ->
  (FP.calc_build_time solve D Rmax steps = Some (Raise ValueError)
   <-> steps <= k)
  /\ ((exists T c', FP.calc_build_time solve D Rmax steps = Some (Ok (T, c')))
      <-> k < steps)
  /\ (k < steps ->
      FP.calc_build_time solve D Rmax steps = Some (Ok (k + 1, c))).
Proof.
  intros Hinf Hreq.
  rewrite (calc_build_time_required solve D Rmax steps k c Hinf Hreq).
  destruct (k <? steps) eqn:E.
  - apply Z.ltb_lt in E. split; [|split]; try done.
    + split; [done|lia].
    + split; [done|]. intros _. by eexists _, _.
  - apply Z.ltb_ge in E. split; [|split]; try done; try lia.
    split; [by intros (T & c' & Hret)|lia].
Qed.

Lemma calc_build_time_raises_iff_witness :
  let c : vec3 := (192 # 1024, -960 # 1024, 1280 # 1024)%Q in
  inf_gt 1%Q = true
  /\ required_build_time exact_solve 1%Q 1%Q 2 c
  /\ minimal_feasible 1 1 2
  /\ FP.calc_build_time exact_solve 1%Q 1%Q 2 = Some (Raise ValueError)
  /\ FP.calc_build_time exact_solve 1%Q 1%Q 3 = Some (Ok (3, c)).
Proof.
  intros c.
  assert (Hinf : inf_gt 1%Q = true) by reflexivity.
  assert (Hreq : required_build_time exact_solve 1%Q 1%Q 2 c).
  { split; [lia|]. split.
    - eexists. split; reflexivity.
    - intros T' HT'. assert (T' = 0 \/ T' = 1) as [-> | ->] by lia.
      + by left.
      + right. eexists _, _. split; reflexivity. }
  split; [exact Hinf|]. split; [exact Hreq|].
  split; [apply required_build_time_exact; by exists c|].
  destruct (calc_build_time_raises_iff exact_solve 1%Q 1%Q 2 2 c Hinf Hreq)
    as (Hraise & _ & _).
  destruct (calc_build_time_raises_iff exact_solve 1%Q 1%Q 3 2 c Hinf Hreq)
    as (_ & _ & Hret).
  split; [apply Hraise; lia|apply Hret; lia].
Defined.

(** ** One call of [calc_displacement_scale], over any arithmetic *)

Section ScaleFP.
Context {F : Type} {float : Float F}.
Local Open Scope fp_scope.

Variables (a b c max_displacement : F) (build_time : Z)
          (max_displacement_rate build_displacement : F).

(** C4.  The three phases, with the expressions that are returned.  When
    [step < build_time / 2] the rate is
    [5 * a * step**4 + 4 * b * step**3 + 3 * c * step**2].  Otherwise,
    with [ease_off <> 0] and [t = step - ease_off + build_time / 2], it is
    the literal [0.0] when [t > build_time] and
    [5 * a * t**4 + 4 * b * t**3 + 3 * c * t**2] when not.  Otherwise it
    is [1.0 * max_displacement_rate], whether or not this call records
    [ease_off], and so [max_displacement_rate] itself wherever multiplying
    it by [1.0] changes nothing, as in binary64. *)
Theorem calc_displacement_scale_three_phases (step ease_off : Z) :
  let rate := fst (FP.calc_displacement_scale (a, b, c) max_displacement
                     build_time max_displacement_rate step
                     build_displacement ease_off) in
  let t := of_int (step - ease_off) ⊕ int_truediv build_time 2 in
  (int_lt step (int_truediv build_time 2) = true ->
   rate = of_int 5 ⊗ a ⊗ of_int (step ^ 4)
          ⊕ of_int 4 ⊗ b ⊗ of_int (step ^ 3)
          ⊕ of_int 3 ⊗ c ⊗ of_int (step ^ 2))
  /\ (int_lt step (int_truediv build_time 2) = false -> ease_off <> 0 ->
      (gt_int t build_time = true -> rate = literal 0%Q)
      /\ (gt_int t build_time = false ->
          rate = of_int 5 ⊗ a ⊗ fpow t 4 ⊕ of_int 4 ⊗ b ⊗ fpow t 3
                 ⊕ of_int 3 ⊗ c ⊗ fpow t 2))
  /\ (int_lt step (int_truediv build_time 2) = false -> ease_off = 0 ->
      rate = literal 1%Q ⊗ max_displacement_rate
      /\ (literal 1%Q ⊗ max_displacement_rate = max_displacement_rate ->
          rate = max_displacement_rate)).
Proof.
  intros rate t. subst rate. unfold FP.calc_displacement_scale. fold t.
  destruct (int_lt step (int_truediv build_time 2)).
  - split; [done|]. split; intros Hge; discriminate Hge.
  - split; [intros Hlt; discriminate Hlt|]. split; intros _ He.
    + apply Z.eqb_neq in He. rewrite He. simpl.
      destruct (gt_int t build_time); simpl.
      * split; [done|]. intros Hgt. discriminate Hgt.
      * split; [intros Hgt; discriminate Hgt|done].
    + subst ease_off. simpl.
      assert (Hrate : forall e1 e2 : Z,
                 fst (if total_displacement build_time max_displacement_rate
                           build_displacement step ≺ max_displacement
                      then (literal 1%Q ⊗ max_displacement_rate, e1)
                      else (literal 1%Q ⊗ max_displacement_rate, e2))
                 = literal 1%Q ⊗ max_displacement_rate)
        by (intros e1 e2; by destruct (_ ≺ _)).
      unfold total_displacement in Hrate. rewrite Hrate.
      split; [done|]. intros Hone. exact Hone.
Qed.

(** C5.  In the constant-rate phase ([step < build_time / 2] is false and
    [ease_off] is 0) the call returns [step] as [ease_off] exactly when the
    displacement accumulated so far, the linear displacement
    [(step - build_time / 2) * max_displacement_rate] plus the two halves
    of the build-phase displacement, added up as the code does, is not
    below [max_displacement]; it returns 0 when it is below.  At the exact
    rationals that sum is [build_displacement + max_displacement_rate *
    (step - build_time / 2)] ([total_displacement_exact]). *)
Theorem calc_displacement_scale_records_ease_off (step : Z) :
  int_lt step (int_truediv build_time 2) = false ->
  let total := total_displacement build_time max_displacement_rate
                 build_displacement step in
  let ease_off' := snd (FP.calc_displacement_scale (a, b, c) max_displacement
                          build_time max_displacement_rate step
                          build_displacement 0) in
  ((total ≺ max_displacement) = false -> ease_off' = step)
  /\ ((total ≺ max_displacement) = true -> ease_off' = 0).
Proof.
  intros Hstep total ease_off'. subst total ease_off'.
  unfold FP.calc_displacement_scale, total_displacement. rewrite Hstep. simpl.
  destruct (_ ≺ max_displacement); simpl;
    split; intros Ht; done || discriminate Ht.
Qed.

(** A recorded [ease_off] is kept, and [ease_off = 0] becomes [step] or
    stays 0. *)
Lemma ease_off_step (step ease_off : Z) :
  snd (FP.calc_displacement_scale (a, b, c) max_displacement build_time
         max_displacement_rate step build_displacement ease_off)
  = if ease_off =? 0
    then if reaches_target max_displacement build_time
              max_displacement_rate build_displacement step
         then step else 0
    else ease_off.
Proof.
  unfold FP.calc_displacement_scale, reaches_target, total_displacement.
  destruct (int_lt step (int_truediv build_time 2)); simpl.
  - by destruct (Z.eqb_spec ease_off 0) as [->|].
  - destruct (Z.eqb_spec ease_off 0) as [->|Hne]; simpl.
    + by destruct (_ ≺ max_displacement).
    + by destruct (gt_int _ build_time).
Qed.

End ScaleFP.

(** At the exact rationals the displacement of the constant-rate phase is
    the build-phase displacement plus the linear displacement. *)
Lemma total_displacement_exact (build_time : Z)
      (max_displacement_rate build_displacement : Q) (step : Z) :
  (total_displacement build_time max_displacement_rate build_displacement
     step
   == build_displacement
      + max_displacement_rate * (inject_Z step - inject_Z build_time / 2))%Q.
Proof.
  unfold total_displacement.
  cbn [int_truediv of_int fadd fsub fmul fdiv exact].
  change (inject_Z 2) with 2%Q. field.
Qed.

(** ** One call of [calc_displacement_scale] *)

Section RampFacts.
Variables (coefficients : vec3) (max_displacement : Q) (build_time : Z)
          (max_displacement_rate build_displacement : Q).

Local Abbreviation rate_at' :=
  (rate_at coefficients max_displacement build_time max_displacement_rate
     build_displacement).
Local Abbreviation ramp_trace' :=
  (ramp_trace coefficients max_displacement build_time max_displacement_rate
     build_displacement).

Lemma ease_off_kept (step ease_off : Z) :
  ease_off <> 0 -> snd (rate_at' step ease_off) = ease_off.
Proof.
  intros He. unfold rate_at, calc_displacement_scale.
  apply Z.eqb_neq in He. rewrite He. simpl.
  repeat match goal with |- context [if ?b then _ else _] => destruct b end;
    reflexivity.
Qed.

Lemma ease_off_set (step : Z) :
  snd (rate_at' step 0) = 0 \/ snd (rate_at' step 0) = step.
Proof.
  unfold rate_at, calc_displacement_scale. simpl.
  repeat match goal with |- context [if ?b then _ else _] => destruct b end;
    auto.
Qed.

Lemma trace_ease_off_frozen (steps : list Z) (e : Z) :
  e <> 0 -> map snd (ramp_trace' steps e) = replicate (length steps) e.
Proof.
  intros He. induction steps as [|s steps IH]; [done|].
  simpl. rewrite ease_off_kept by done. by rewrite IH.
Qed.

Lemma changes_replicate (n : nat) (e : Z) :
  changes (e :: replicate n e) = 0%nat.
Proof.
  induction n as [|n IH]; [done|].
  change (replicate (S n) e) with (e :: replicate n e).
  simpl in *. rewrite Z.eqb_refl. exact IH.
Qed.

Lemma trace_changes (steps : list Z) (e : Z) :
  (changes (e :: map snd (ramp_trace' steps e)) <= 1)%nat.
Proof.
  destruct (Z.eq_dec e 0) as [->|He].
  - induction steps as [|s steps IH]; [simpl; lia|].
    cbn [ramp_trace map].
    destruct (ease_off_set s) as [H0|Hs].
    + rewrite H0. cbn [changes]. rewrite Z.eqb_refl. exact IH.
    + rewrite Hs. destruct (Z.eq_dec s 0) as [->|Hs0].
      * cbn [changes]. rewrite Z.eqb_refl. exact IH.
      * cbn [changes]. rewrite trace_ease_off_frozen by done.
        pose proof (changes_replicate (length steps) s) as Hc.
        destruct (0 =? s); simpl in *; lia.
  - rewrite trace_ease_off_frozen by done.
    rewrite changes_replicate. lia.
Qed.

Lemma trace_never_reset (steps : list Z) (e0 : Z) (i j : nat) (ei ej : Z) :
  (i <= j)%nat ->
  (e0 :: map snd (ramp_trace' steps e0)) !! i = Some ei ->
  (e0 :: map snd (ramp_trace' steps e0)) !! j = Some ej ->
  ei <> 0 -> ej = ei.
Proof.
  revert e0 i j. induction steps as [|s steps IH]; intros e0 i j Hij Hi Hj Hne.
  - destruct i as [|i]; [|done]. destruct j as [|j]; [|done].
    simpl in *. congruence.
  - destruct i as [|i].
    + simpl in Hi. injection Hi as ->.
      cbn [ramp_trace map] in Hj. rewrite ease_off_kept in Hj by done.
      rewrite trace_ease_off_frozen in Hj by done.
      change (ei :: ei :: replicate (length steps) ei)
        with (replicate (S (S (length steps))) ei) in Hj.
      apply lookup_replicate in Hj. by destruct Hj.
    + destruct j as [|j]; [lia|].
      cbn [ramp_trace map] in Hi, Hj. simpl in Hi, Hj.
      eapply (IH _ i j); [lia|exact Hi|exact Hj|done].
Qed.

(** C6.  A call with [ease_off <> 0] returns it unchanged; a call with
    [ease_off = 0] returns 0 or the current step; so along any sequence of
    calls that passes the returned [ease_off] on, its value changes at most
    once, and once it is not 0 it keeps its value. *)
Theorem ease_off_changes_at_most_once :
  (forall step ease_off,
      ease_off <> 0 ->
      snd (calc_displacement_scale coefficients max_displacement build_time
             max_displacement_rate step build_displacement ease_off)
      = ease_off)
  /\ (forall step,
         let ease_off' :=
           snd (calc_displacement_scale coefficients max_displacement
                  build_time max_displacement_rate step build_displacement 0)
         in ease_off' = 0 \/ ease_off' = step)
  /\ (forall steps,
         let trace :=
           0 :: map snd (ramp_trace coefficients max_displacement build_time
                           max_displacement_rate build_displacement steps 0)
         in
         (changes trace <= 1)%nat
         /\ forall (i j : nat) (ei ej : Z),
             (i <= j)%nat -> trace !! i = Some ei -> trace !! j = Some ej ->
             ei <> 0 -> ej = ei).
Proof.
  split; [exact ease_off_kept|]. split; [exact ease_off_set|].
  intros steps trace. split; [apply trace_changes|].
  intros i j ei ej. apply trace_never_reset.
Qed.

End RampFacts.

(** ** The rate for a build time and coefficients from [calc_build_time] *)


Section ReturnedRamp.
Variables (D Rmax : Q) (steps T : Z) (c : vec3).
Hypothesis HD : (0 < D)%Q.
Hypothesis HR : (0 < Rmax)%Q.
Hypothesis Hret : calc_build_time D Rmax steps = Some (Ok (T, c)).





End ReturnedRamp.

Local Open Scope Q_scope.



Local Open Scope Z_scope.

(** C3.  With [build_displacement = 1], [max_displacement_rate = 2] and
    [steps = 10], [calc_build_time] returns the build time 2.  With
    [max_displacement = 1] the call at step 1 records [ease_off = 1], and
    the call at step 2 then returns the rate 120, above the maximum rate
    2. *)
Theorem rate_exceeds_maximum :
  exists c : vec3,
    calc_build_time 1 2 10 = Some (Ok (2, c))
    /\ reachable_ease_off c 1 2 2 1 1
    /\ (fst (calc_displacement_scale c 1 2 2 2 1 1) == 120)%Q
    /\ ~ (fst (calc_displacement_scale c 1 2 2 2 1 1) <= 2)%Q.
Proof.
  eexists. split; [reflexivity|]. split; [|split].
  - exact (reachable_next _ 1 2 2 1 0 1 (reachable_initial _ 1 2 2 1)
             ltac:(lia)).
  - reflexivity.
  - intros H. vm_compute in H. by apply H.
Qed.


(** The other two boundaries of the same ramp: the first deceleration step
    and the last one before the clamp both return 120. *)
Lemma rate_jumps_in_deceleration :
  exists c : vec3,
    calc_build_time 1 2 10 = Some (Ok (2, c))
    /\ (fst (calc_displacement_scale c 1 2 2 (1 + 1) 1 1) - 2 == 118)%Q
    /\ (quintic_rate c (inject_Z 2) == 120)%Q
    /\ fst (calc_displacement_scale c 1 2 2 3 1 1) = 0%Q.
Proof. eexists. repeat split; reflexivity. Qed.


(** ** [read_array] *)

Section ReadArray.
Context {array : Type} {shape : Shape array}.
Implicit Types (fs : gmap string (gmap string array)) (hf : gmap string array).

Lemma read_array_present missing fs read_path dataset hf a :
  fs !! read_path = Some hf -> hf !! dataset = Some a ->
  read_array missing fs read_path dataset
  = if (ndim a =? 0)%nat then Raise ValueError else Ok (Some a).
Proof.
  intros H1 H2. unfold read_array, h5py_File_r, h5_getitem, dataset_slice.
  rewrite H1. simpl. rewrite H2. simpl. by destruct (ndim a =? 0)%nat.
Qed.

(** C8.  A missing file makes [read_array] return [None].  A file that
    exists but does not hold the dataset makes it raise: the exception of
    the lookup when that is not an [IOError], and [UnboundLocalError] from
    [return array] when it is. *)
Theorem read_array_absence missing fs read_path dataset :
  (fs !! read_path = None ->
     read_array missing fs read_path dataset = Ok None)
  /\ (forall hf,
         fs !! read_path = Some hf -> hf !! dataset = None ->
         read_array missing fs read_path dataset
         = Raise (if decide (missing = IOError) then UnboundLocalError
                  else missing)).
Proof.
  split.
  - intros H. unfold read_array, h5py_File_r. by rewrite H.
  - intros hf H1 H2. unfold read_array, h5py_File_r, h5_getitem.
    rewrite H1. simpl. rewrite H2. simpl.
    destruct (decide (missing = IOError)) as [->|Hne]; simpl; [done|].
    unfold mbind, result_bind. simpl.
    destruct (decide (missing = IOError)); done.
Qed.

End ReadArray.

Lemma read_array_absence_witness :
  let fs : gmap string (gmap string (list Z)) :=
    {[ "model.h5"%string := {[ "family"%string := [1; 2] ]} ]} in
  fs !! "model.h5"%string = Some {[ "family"%string := [1; 2] ]}
  /\ ({[ "family"%string := [1; 2] ]} : gmap string (list Z)) !! "volume"%string
     = None
  /\ read_array KeyError fs "model.h5" "volume" = Raise KeyError
  /\ read_array IOError fs "model.h5" "volume" = Raise UnboundLocalError
  /\ read_array KeyError fs "other.h5" "volume" = Ok None.
Proof.
  intros fs.
  assert (H1 : fs !! "model.h5"%string = Some {[ "family"%string := [1; 2] ]})
    by reflexivity.
  assert (H2 : ({[ "family"%string := [1; 2] ]} : gmap string (list Z))
                 !! "volume"%string = None) by reflexivity.
  split; [exact H1|]. split; [exact H2|]. split; [|split].
  - exact (proj2 (read_array_absence KeyError fs "model.h5" "volume") _ H1 H2).
  - exact (proj2 (read_array_absence IOError fs "model.h5" "volume") _ H1 H2).
  - apply (proj1 (read_array_absence KeyError fs "other.h5" "volume")).
    reflexivity.
Defined.

(** ** [is_crack] *)

Lemma is_crack_symmetric (x y : list Q) : is_crack x y = is_crack y x.
Proof.
  unfold is_crack, getitem.
  destruct (x !! 0%nat) as [x0|] eqn:Ex, (y !! 0%nat) as [y0|] eqn:Ey;
    simpl; try done.
  destruct (Qltb_spec y0 x0) as [Hyx|Hyx], (Qltb_spec x0 y0) as [Hxy|Hxy];
    try done.
  - exfalso. lra.
  - (* equal abscissae: neither order is on both sides of the line *)
    rewrite Ex, Ey. simpl.
    destruct (Qltb_spec x0 ((1 # 2) + (1 # 1000000))),
             (Qltb_spec ((1 # 2) + (1 # 1000000)) y0),
             (Qltb_spec y0 ((1 # 2) + (1 # 1000000))),
             (Qltb_spec ((1 # 2) + (1 # 1000000)) x0); simpl; try done;
      exfalso; lra.
Qed.

Lemma is_crack_no_zero_division (x y : list Q) :
  is_crack x y <> Raise ZeroDivisionError.
Proof.
  unfold is_crack, getitem, truediv.
  destruct (x !! 0%nat) as [x0|] eqn:Ex, (y !! 0%nat) as [y0|] eqn:Ey;
    simpl; try done.
  assert (Hnz : forall a b : Q,
             (a < (1 # 2) + (1 # 1000000))%Q -> ((1 # 2) + (1 # 1000000) < b)%Q ->
             Qeq_bool (b - a) 0 = false).
  { intros a b Ha Hb. destruct (Qeq_bool (b - a) 0) eqn:E; [|done].
    apply Qeq_bool_eq in E. exfalso. lra. }
  destruct (Qltb y0 x0); rewrite ?Ex, ?Ey; simpl.
  - destruct (Qltb_spec y0 ((1 # 2) + (1 # 1000000))) as [H1|H1]; simpl; [|done].
    destruct (Qltb_spec ((1 # 2) + (1 # 1000000)) x0) as [H2|H2]; simpl; [|done].
    destruct (x !! 1%nat), (y !! 1%nat); simpl; try done.
    rewrite (Hnz _ _ H1 H2). simpl.
    by destruct (_ && _).
  - destruct (Qltb_spec x0 ((1 # 2) + (1 # 1000000))) as [H1|H1]; simpl; [|done].
    destruct (Qltb_spec ((1 # 2) + (1 # 1000000)) y0) as [H2|H2]; simpl; [|done].
    destruct (y !! 1%nat), (x !! 1%nat); simpl; try done.
    rewrite (Hnz _ _ H1 H2). simpl.
    by destruct (_ && _).
Qed.

Lemma is_crack_same_side (x y : list Q) (x0 y0 : Q) :
  x !! 0%nat = Some x0 -> y !! 0%nat = Some y0 ->
  ~ ((x0 < cut_line /\ cut_line < y0) \/ (y0 < cut_line /\ cut_line < x0))%Q ->
  is_crack x y = Ok 0.
Proof.
  intros Ex Ey Hside. unfold is_crack, getitem. rewrite Ex, Ey. simpl.
  fold cut_line.
  destruct (Qltb y0 x0); rewrite ?Ex, ?Ey; simpl.
  - destruct (Qltb_spec y0 cut_line), (Qltb_spec cut_line x0); simpl; try done.
    exfalso. apply Hside. by right.
  - destruct (Qltb_spec x0 cut_line), (Qltb_spec cut_line y0); simpl; try done.
    exfalso. apply Hside. by left.
Qed.

(** C9.  [is_crack] gives the same result for a pair of coordinates in
    either order; it never divides by zero; and unless the two abscissae
    lie strictly on opposite sides of the line [x = 0.5 + 1e-6] it returns
    0 without computing a slope. *)
Theorem is_crack_symmetric_and_safe (x y : list Q) :
  is_crack x y = is_crack y x
  /\ is_crack x y <> Raise ZeroDivisionError
  /\ (forall x0 y0 : Q,
         x !! 0%nat = Some x0 -> y !! 0%nat = Some y0 ->
         ~ ((x0 < cut_line /\ cut_line < y0)
            \/ (y0 < cut_line /\ cut_line < x0))%Q ->
         is_crack x y = Ok 0).
Proof.
  split; [apply is_crack_symmetric|].
  split; [apply is_crack_no_zero_division|].
  intros x0 y0. apply is_crack_same_side.
Qed.

Lemma is_crack_symmetric_and_safe_witness :
  is_crack [1 # 10; 1 # 2]%Q [9 # 10; 1 # 2]%Q
  = is_crack [9 # 10; 1 # 2]%Q [1 # 10; 1 # 2]%Q
  /\ is_crack [1 # 10; 1 # 2]%Q [9 # 10; 1 # 2]%Q = Ok 1
  /\ is_crack [1 # 10; 1 # 2]%Q [2 # 10; 1 # 2]%Q = Ok 0.
Proof.
  split; [|split].
  - apply (is_crack_symmetric_and_safe [1 # 10; 1 # 2]%Q [9 # 10; 1 # 2]%Q).
  - reflexivity.
  - apply (proj2 (proj2 (is_crack_symmetric_and_safe
                           [1 # 10; 1 # 2]%Q [2 # 10; 1 # 2]%Q))
             (1 # 10)%Q (2 # 10)%Q eq_refl eq_refl).
    intros [[_ H]|[_ H]]; vm_compute in H; discriminate H.
Defined.

(** ** [boundary_function] *)

Lemma bind_Ok {A B : Type} (a : A) (k : A -> result B) : (Ok a ≫= k) = k a.
Proof. reflexivity. Qed.

Lemma update_rows_lookup (f : list Q -> list Q) (ks : list nat)
      (rs : list (list Q)) (i : nat) :
  update_rows f ks rs !! i
  = (fun r => if bool_decide (i ∈ ks) then f r else r) <$> rs !! i.
Proof. unfold update_rows. by rewrite list_lookup_imap. Qed.

Lemma update_rows_length (f : list Q -> list Q) (ks : list nat)
      (rs : list (list Q)) :
  length (update_rows f ks rs) = length rs.
Proof. unfold update_rows. apply length_imap. Qed.

Lemma fill_slice_lookup (lo hi : nat) (v : Q) (row : list Q) (j : nat) :
  fill_slice lo hi v row !! j
  = (fun x => if (lo <=? j)%nat && (j <? hi)%nat then v else x) <$> row !! j.
Proof. unfold fill_slice. by rewrite list_lookup_imap. Qed.

Lemma fill_slice_length (lo hi : nat) (v : Q) (row : list Q) :
  length (fill_slice lo hi v row) = length row.
Proof. unfold fill_slice. apply length_imap. Qed.

Lemma setitem_rows_slice_ok (u : ndarray) (idx : list Z) (lo hi : nat) (v : Q)
      (ks : list nat) :
  normalize_indices (length (rows u)) idx = Ok ks ->
  setitem_rows_slice u idx lo hi v
  = Ok {| ncols := ncols u;
          rows := update_rows (fill_slice lo hi v) ks (rows u) |}.
Proof. intros H. unfold setitem_rows_slice. by rewrite H. Qed.

Lemma setitem_rows_col_ok (u : ndarray) (idx : list Z) (j : nat) (v : Q)
      (ks : list nat) :
  normalize_indices (length (rows u)) idx = Ok ks -> (j < ncols u)%nat ->
  setitem_rows_col u idx j v
  = Ok {| ncols := ncols u;
          rows := update_rows (fun r => <[j := v]> r) ks (rows u) |}.
Proof.
  intros H Hj. unfold setitem_rows_col. rewrite H, bind_Ok.
  apply Nat.ltb_lt in Hj. by rewrite Hj.
Qed.

(** Row by row, [boundary_function] is [load_row]. *)
Lemma boundary_function_rows (model : Model) (u : ndarray) (step : Z)
      (L R : list nat) :
  normalize_indices (length (rows u)) (lhs model) = Ok L ->
  normalize_indices (length (rows u)) (rhs model) = Ok R ->
  (0 < ncols u)%nat ->
  exists u',
    boundary_function model u step = Ok u'
    /\ ncols u' = ncols u
    /\ length (rows u') = length (rows u)
    /\ forall i, rows u' !! i
                 = load_row (bool_decide (i ∈ L)) (bool_decide (i ∈ R)) step
                     <$> rows u !! i.
Proof.
  intros HL HR Hc. unfold boundary_function.
  rewrite (setitem_rows_slice_ok u _ _ _ _ L HL), bind_Ok.
  rewrite (setitem_rows_slice_ok _ _ _ _ _ R), bind_Ok
    by (cbn [rows]; by rewrite update_rows_length).
  rewrite (setitem_rows_col_ok _ _ _ _ L), bind_Ok
    by (cbn [rows ncols]; by rewrite ?update_rows_length).
  rewrite (setitem_rows_col_ok _ _ _ _ R), bind_Ok
    by (cbn [rows ncols]; by rewrite ?update_rows_length).
  eexists. split; [reflexivity|]. cbn [rows ncols].
  split; [done|]. split; [by rewrite !update_rows_length|].
  intros i. rewrite !update_rows_lookup.
  destruct (rows u !! i) as [r|]; [|done]. cbn. f_equal.
Qed.

(** Indices as [np.nonzero] produces them: in range, not negative. *)
Lemma normalize_indices_in_range (n : nat) (idx : list Z) :
  Forall (fun z => 0 <= z < Z.of_nat n) idx ->
  normalize_indices n idx = Ok (map Z.to_nat idx).
Proof.
  induction 1 as [|z idx Hz _ IH]; [done|].
  simpl. unfold normalize_index.
  assert ((0 <=? z) && (z <? Z.of_nat n) = true) as -> by lia.
  by rewrite bind_Ok, IH.
Qed.

Lemma elem_of_map_to_nat (idx : list Z) (i : nat) :
  Forall (fun z => 0 <= z) idx ->
  i ∈ map Z.to_nat idx <-> Z.of_nat i ∈ idx.
Proof.
  intros Hnn. rewrite list_elem_of_fmap. split.
  - intros (z & -> & Hz).
    rewrite Forall_forall in Hnn.
    rewrite Z2Nat.id; [done|]. by apply Hnn.
  - intros Hi. exists (Z.of_nat i). by rewrite Nat2Z.id.
Qed.

Lemma load_row_untouched (step : Z) (r : list Q) :
  load_row false false step r = r.
Proof. reflexivity. Qed.

Lemma load_row_length (a b : bool) (step : Z) (r : list Q) :
  length (load_row a b step r) = length r.
Proof.
  unfold load_row. destruct a, b;
    by rewrite ?length_insert, ?fill_slice_length.
Qed.

Lemma load_row_transverse (a b : bool) (step : Z) (r : list Q) (j : nat) :
  a || b = true -> (1 <= j < 3)%nat -> (j < length r)%nat ->
  load_row a b step r !! j = Some 0%Q.
Proof.
  intros Hab Hj Hlen. destruct (lookup_lt_is_Some_2 r j Hlen) as [x Hx].
  assert (Hf : forall l, l !! j = Some x \/ l !! j = Some 0%Q ->
                         fill_slice 1 3 0%Q l !! j = Some 0%Q).
  { intros l Hl. rewrite fill_slice_lookup.
    assert ((1 <=? j)%nat && (j <? 3)%nat = true) as ->
        by (apply andb_true_iff; split; [apply Nat.leb_le|apply Nat.ltb_lt]; lia).
    by destruct Hl as [->| ->]. }
  unfold load_row. destruct a, b; try done;
    rewrite ?list_lookup_insert_ne by lia; auto.
Qed.

Lemma load_row_beyond (a b : bool) (step : Z) (r : list Q) (j : nat) :
  (3 <= j)%nat -> load_row a b step r !! j = r !! j.
Proof.
  intros Hj.
  assert (Hf : forall l, fill_slice 1 3 0%Q l !! j = l !! j).
  { intros l. rewrite fill_slice_lookup.
    assert ((j <? 3)%nat = false) as -> by (apply Nat.ltb_ge; lia).
    rewrite andb_false_r. by destruct (l !! j). }
  unfold load_row. destruct a, b;
    rewrite ?list_lookup_insert_ne by lia; by rewrite ?Hf.
Qed.

Lemma load_row_rhs (a : bool) (step : Z) (r : list Q) :
  (0 < length r)%nat ->
  load_row a true step r !! 0%nat = Some (extension step).
Proof.
  intros Hlen. unfold load_row.
  apply list_lookup_insert_eq.
  destruct a; by rewrite ?length_insert, ?fill_slice_length.
Qed.

Lemma load_row_lhs_only (step : Z) (r : list Q) :
  (0 < length r)%nat ->
  load_row true false step r !! 0%nat = Some (- extension step)%Q.
Proof.
  intros Hlen. unfold load_row.
  apply list_lookup_insert_eq. by rewrite fill_slice_length.
Qed.

Lemma normalize_index_cases (n : nat) (z : Z) :
  (- Z.of_nat n <= z < Z.of_nat n
   /\ exists k, normalize_index n z = Ok k /\ (k < n)%nat)
  \/ (~ - Z.of_nat n <= z < Z.of_nat n
      /\ normalize_index n z = Raise IndexError).
Proof.
  unfold normalize_index.
  destruct ((0 <=? z) && (z <? Z.of_nat n)) eqn:E1.
  - left. split; [lia|]. eexists. split; [done|]. lia.
  - destruct ((- Z.of_nat n <=? z) && (z <? 0)) eqn:E2.
    + left. split; [lia|]. eexists. split; [done|]. lia.
    + right. split; [lia|done].
Qed.

Lemma normalize_indices_cases (n : nat) (idx : list Z) :
  (Forall (fun z => - Z.of_nat n <= z < Z.of_nat n) idx
   /\ exists ks, normalize_indices n idx = Ok ks)
  \/ (~ Forall (fun z => - Z.of_nat n <= z < Z.of_nat n) idx
      /\ normalize_indices n idx = Raise IndexError).
Proof.
  induction idx as [|z idx IH]; [left; split; [done|by eexists]|].
  simpl. destruct (normalize_index_cases n z) as [(Hz & k & -> & _)|[Hz ->]].
  - rewrite bind_Ok. destruct IH as [(Hall & ks & ->)|[Hall ->]].
    + left. split; [by constructor|]. by eexists.
    + right. split; [|done]. intros H. apply Hall. by inversion H.
  - right. split; [|done]. intros H. apply Hz. by inversion H.
Qed.

Lemma boundary_function_cases (model : Model) (u : ndarray) (step : Z) :
  let in_range := fun z =>
    - Z.of_nat (length (rows u)) <= z < Z.of_nat (length (rows u)) in
  (Forall in_range (lhs model) /\ Forall in_range (rhs model)
   /\ (0 < ncols u)%nat
   /\ exists L R,
       normalize_indices (length (rows u)) (lhs model) = Ok L
       /\ normalize_indices (length (rows u)) (rhs model) = Ok R)
  \/ (~ (Forall in_range (lhs model) /\ Forall in_range (rhs model)
         /\ (0 < ncols u)%nat)
      /\ boundary_function model u step = Raise IndexError).
Proof.
  intros in_range. unfold boundary_function.
  destruct (normalize_indices_cases (length (rows u)) (lhs model))
    as [(HL & L & EL)|[HL EL]].
  2: { right. split; [tauto|]. unfold setitem_rows_slice. by rewrite EL. }
  destruct (normalize_indices_cases (length (rows u)) (rhs model))
    as [(HR & R & ER)|[HR ER]].
  2: { right. split; [tauto|].
       rewrite (setitem_rows_slice_ok u _ _ _ _ L EL), bind_Ok.
       unfold setitem_rows_slice at 1. cbn [rows].
       by rewrite update_rows_length, ER. }
  destruct (ncols u) as [|nc] eqn:Ec.
  - right. split; [lia|].
    rewrite (setitem_rows_slice_ok u _ _ _ _ L EL), bind_Ok.
    rewrite (setitem_rows_slice_ok _ _ _ _ _ R), bind_Ok
      by (cbn [rows]; by rewrite update_rows_length).
    unfold setitem_rows_col. cbn [rows ncols].
    rewrite !update_rows_length, EL, bind_Ok, Ec. done.
  - left. repeat split; try done; [lia|]. by exists L, R.
Qed.

Lemma load_row_lookup (a b : bool) (step : Z) (r : list Q) (j : nat) :
  load_row a b step r !! j
  = (fun x => if a || b then loaded_value b step j x else x) <$> r !! j.
Proof.
  destruct (r !! j) as [x|] eqn:E; simpl.
  - assert (Hlen : (j < length r)%nat) by (by eapply lookup_lt_Some).
    destruct a, b; destruct j as [|[|[|j]]];
      cbv beta iota delta [orb loaded_value];
      first [ by rewrite load_row_untouched
            | apply load_row_rhs; lia
            | apply load_row_lhs_only; lia
            | apply load_row_transverse; [done|lia|done]
            | by rewrite load_row_beyond by lia ].
  - apply lookup_ge_None. rewrite load_row_length. by apply lookup_ge_None.
Qed.




(** ** The theorems at concrete inputs *)

Local Open Scope fp_scope.

(** In binary64, with the coefficients
    [(5.999999999999995, -14.999999999999986, 9.999999999999991)], the
    build time 2 and the maximum rate [1 + 2^-52]: the rate is [0.0] at
    step 0, the maximum rate at step 1, [119.99999999999989] at step 2
    with [ease_off = 1], where [t = 2], and [0.0] at step 3, where
    [t = 3]. *)
Lemma calc_displacement_scale_three_phases_witness :
  let a := b64 3377699720527869 (-49) in
  let b := b64 (-1055531162664959) (-46) in
  let c := b64 5629499534213115 (-49) in
  let Rmax := b64 4503599627370497 (-52) in
  let rate step ease_off :=
    fst (FP.calc_displacement_scale (a, b, c) (b64 1 0) 2 Rmax step
           (b64 1 0) ease_off) in
  int_lt 0 (int_truediv 2 2 : spec_float) = true
  /\ rate 0 0 = b64 0 0
  /\ int_lt 1 (int_truediv 2 2 : spec_float) = false
  /\ literal 1%Q ⊗ Rmax = Rmax
  /\ rate 1 0 = Rmax
  /\ int_lt 2 (int_truediv 2 2 : spec_float) = false
  /\ gt_int (of_int (2 - 1) ⊕ int_truediv 2 2 : spec_float) 2 = false
  /\ rate 2 1 = b64 1055531162664959 (-43)
  /\ gt_int (of_int (3 - 1) ⊕ int_truediv 2 2 : spec_float) 2 = true
  /\ rate 3 1 = b64 0 0.
Proof.
  intros a b c Rmax rate.
  assert (H0 : int_lt 0 (int_truediv 2 2 : spec_float) = true)
    by reflexivity.
  assert (H1 : int_lt 1 (int_truediv 2 2 : spec_float) = false)
    by reflexivity.
  assert (Hone : literal 1%Q ⊗ Rmax = Rmax) by reflexivity.
  assert (H2 : int_lt 2 (int_truediv 2 2 : spec_float) = false)
    by reflexivity.
  assert (Ht2 : gt_int (of_int (2 - 1) ⊕ int_truediv 2 2 : spec_float) 2
                = false) by reflexivity.
  assert (H3 : int_lt 3 (int_truediv 2 2 : spec_float) = false)
    by reflexivity.
  assert (Ht3 : gt_int (of_int (3 - 1) ⊕ int_truediv 2 2 : spec_float) 2
                = true) by reflexivity.
  pose proof (calc_displacement_scale_three_phases a b c (b64 1 0) 2 Rmax
                (b64 1 0)) as Hphases.
  split; [exact H0|]. split.
  { destruct (Hphases 0 0) as (Hacc & _ & _).
    unfold rate. rewrite (Hacc H0). reflexivity. }
  split; [exact H1|]. split; [exact Hone|]. split.
  { destruct (Hphases 1 0) as (_ & _ & Hconst).
    exact (proj2 (Hconst H1 eq_refl) Hone). }
  split; [exact H2|]. split; [exact Ht2|]. split.
  { destruct (Hphases 2 1) as (_ & Hdec & _).
    destruct (Hdec H2 ltac:(discriminate)) as [_ Hpoly].
    unfold rate. rewrite (Hpoly Ht2). reflexivity. }
  split; [exact Ht3|].
  destruct (Hphases 3 1) as (_ & Hdec & _).
  destruct (Hdec H3 ltac:(discriminate)) as [Hzero _].
  unfold rate. rewrite (Hzero Ht3). reflexivity.
Defined.

(** With [max_displacement_rate = 1 + 2^-52], [build_displacement = 2],
    [max_displacement = 5 + 2^-50] and [build_time = 2], the call at step 4
    records [ease_off] in binary64, where the sum rounds to
    [max_displacement], and does not at the exact rationals. *)
Lemma calc_displacement_scale_records_ease_off_witness :
  let z := b64 0 0 in
  let rate := b64 4503599627370497 (-52) in
  let target := b64 5629499534213121 (-50) in
  let rate' := (4503599627370497 # 4503599627370496)%Q in
  let target' := (5629499534213121 # 1125899906842624)%Q in
  int_lt 4 (int_truediv 2 2 : spec_float) = false
  /\ (total_displacement 2 rate (b64 2 0) 4 ≺ target) = false
  /\ snd (FP.calc_displacement_scale (z, z, z) target 2 rate 4 (b64 2 0) 0)
     = 4
  /\ int_lt 4 (int_truediv 2 2 : Q) = false
  /\ (total_displacement 2 rate' 2%Q 4 ≺ target') = true
  /\ snd (FP.calc_displacement_scale (0%Q, 0%Q, 0%Q) target' 2 rate' 4 2%Q 0)
     = 0.
Proof.
  intros z rate target rate' target'.
  assert (H1 : int_lt 4 (int_truediv 2 2 : spec_float) = false)
    by reflexivity.
  assert (H2 : (total_displacement 2 rate (b64 2 0) 4 ≺ target) = false)
    by reflexivity.
  assert (H3 : int_lt 4 (int_truediv 2 2 : Q) = false) by reflexivity.
  assert (H4 : (total_displacement 2 rate' 2%Q 4 ≺ target') = true)
    by reflexivity.
  split; [exact H1|]. split; [exact H2|]. split.
  - exact (proj1 (calc_displacement_scale_records_ease_off z z z target 2
                    rate (b64 2 0) 4 H1) H2).
  - split; [exact H3|]. split; [exact H4|].
    exact (proj2 (calc_displacement_scale_records_ease_off 0%Q 0%Q 0%Q
                    target' 2 rate' 2%Q 4 H3) H4).
Defined.

Local Close Scope fp_scope.

Lemma ease_off_changes_at_most_once_witness :
  let c : vec3 := (6, -15, 10)%Q in
  let trace := 0 :: map snd (ramp_trace c 1 2 2 1 [0; 1; 2; 3] 0) in
  trace = [0; 0; 1; 1; 1]
  /\ (changes trace <= 1)%nat
  /\ snd (calc_displacement_scale c 1 2 2 3 1 1) = 1.
Proof.
  intros c trace.
  destruct (ease_off_changes_at_most_once c 1 2 2 1) as (Hkeep & _ & Htrace).
  split; [reflexivity|]. split.
  - apply (Htrace [0; 1; 2; 3]).
  - apply (Hkeep 3 1). lia.
Defined.


(** * Further properties of the code *)

(** ** [write_array] and [read_array] *)

Section ArrayStore.
Context {array : Type} {shape : Shape array}.
Implicit Types (fs : gmap string (gmap string array)) (hf : gmap string array).

Lemma read_array_stored missing fs path dataset a :
  stored fs path dataset = Some a ->
  read_array missing fs path dataset
  = if (ndim a =? 0)%nat then Raise ValueError else Ok (Some a).
Proof.
  unfold stored. destruct (fs !! path) as [hf|] eqn:E; [|done]. simpl.
  intros Hd. by apply (read_array_present missing fs path dataset hf).
Qed.

Lemma read_array_returns missing fs path dataset a :
  read_array missing fs path dataset = Ok (Some a) <->
  stored fs path dataset = Some a /\ ndim a <> 0%nat.
Proof.
  split.
  - unfold stored, read_array, h5py_File_r, h5_getitem, dataset_slice.
    destruct (fs !! path) as [hf|]; simpl; [|done].
    destruct (hf !! dataset) as [a'|]; simpl.
    + destruct (ndim a' =? 0)%nat eqn:E; simpl; [done|].
      intros [= ->]. split; [done|]. by apply Nat.eqb_neq.
    + destruct (decide (missing = IOError)) as [->|Hne]; simpl; [done|].
      unfold mbind, result_bind. simpl.
      by destruct (decide (missing = IOError)).
  - intros [Hs Hd]. rewrite (read_array_stored _ _ _ _ _ Hs).
    apply Nat.eqb_neq in Hd. by rewrite Hd.
Qed.

Lemma write_array_new existing fs path dataset a :
  stored fs path dataset = None ->
  write_array existing fs path dataset a
  = (<[path := <[dataset := a]> (default ∅ (fs !! path))]> fs, Ok tt).
Proof.
  unfold stored, write_array, h5py_File_a, create_dataset.
  destruct (fs !! path) as [hf|] eqn:E; simpl.
  - intros ->. done.
  - intros _. rewrite lookup_empty. by rewrite insert_insert_eq.
Qed.

Lemma write_array_existing existing fs path dataset a a' :
  stored fs path dataset = Some a' ->
  write_array existing fs path dataset a = (fs, Raise existing).
Proof.
  unfold stored, write_array, h5py_File_a, create_dataset.
  destruct (fs !! path) as [hf|] eqn:E; simpl; [|done].
  by intros ->.
Qed.


Lemma stored_insert_ne fs path dataset a path' dataset' :
  (path', dataset') <> (path, dataset) ->
  stored (<[path := <[dataset := a]> (default ∅ (fs !! path))]> fs)
    path' dataset'
  = stored fs path' dataset'.
Proof.
  intros Hne. unfold stored.
  destruct (decide (path = path')) as [<-|Hp].
  - rewrite lookup_insert_eq. simpl.
    rewrite lookup_insert_ne by congruence.
    destruct (fs !! path); simpl; [done|apply lookup_empty].
  - by rewrite lookup_insert_ne.
Qed.



(** X3.  Whatever a call of [write_array] does, every array that
    [read_array] returned before the call is returned after it. *)
Theorem write_keeps_reads existing missing fs path dataset a path' dataset' a' :
  read_array missing fs path' dataset' = Ok (Some a') ->
  read_array missing (fst (write_array existing fs path dataset a))
    path' dataset'
  = Ok (Some a').
Proof.
  rewrite !read_array_returns. intros [Hold Hd]. split; [|done].
  destruct (stored fs path dataset) as [b|] eqn:E.
  - by rewrite (write_array_existing _ _ _ _ _ _ E).
  - rewrite (write_array_new _ _ _ _ _ E). simpl.
    rewrite stored_insert_ne; [done|]. intros [= -> ->]. congruence.
Qed.

End ArrayStore.

(** ** The constraint system of [_calc_midpoint_gradient] *)

Local Open Scope Q_scope.

(** X6.  The system that [_calc_midpoint_gradient] hands to
    [np.linalg.solve], the matrix [A] of integers for [T] and the
    right-hand side [(displacement, 0, 0)], is singular exactly at
    [T = 0]; for every other [T] it has exactly one solution, the
    coefficients [6 D / T^5], [-15 D / T^4] and [10 D / T^3], whose curve
    [a t^5 + b t^4 + c t^3] reaches [D] at [t = T] with zero rate and zero
    acceleration there.  This is the solution that the solve
    approximates. *)
Theorem system_has_one_solution (T : Z) (D : Q) :
  (det3 (system_matrix T) == 0 <-> T = 0%Z)
  /\ (T <> 0%Z ->
      (forall x : vec3,
          vec3_eq (mat_vec (system_matrix T) x) (D, 0, 0)
          <-> vec3_eq x (smooth_coefficients T D))
      /\ let '(a, b, c) := smooth_coefficients T D in
         let k := inject_Z T in
         a * k ^ 5 + b * k ^ 4 + c * k ^ 3 == D
         /\ 5 * a * k ^ 4 + 4 * b * k ^ 3 + 3 * c * k ^ 2 == 0
         /\ 20 * a * k ^ 3 + 12 * b * k ^ 2 + 6 * c * k == 0).
Proof.
  split.
  - rewrite det3_system. split.
    + intros Hdet. destruct (Z.eq_dec T 0%Z) as [->|Hne]; [done|].
      exfalso. by apply (Qpow9_nonzero (inject_Z T) (inject_Z_nonzero T Hne)).
    + intros ->. reflexivity.
  - intros HT. pose proof (inject_Z_nonzero T HT) as Hk. split.
    + intros [[x1 x2] x3]. unfold vec3_eq, mat_vec, system_matrix,
        smooth_coefficients.
      push_inject. set (k := inject_Z T) in *. split.
      * intros (E1 & E2 & E3).
        match type of E1 with ?l1 == _ =>
        match type of E2 with ?l2 == _ =>
        match type of E3 with ?l3 == _ =>
          assert (H1 : 2 * k ^ 9 * x1
                       == 12 * k ^ 4 * l1 + k ^ 6 * l2 - 6 * k ^ 5 * l3)
            by ring;
          assert (H2 : 2 * k ^ 9 * x2
                       == - (30) * k ^ 5 * l1 - 2 * k ^ 7 * l2
                          + 14 * k ^ 6 * l3)
            by ring;
          assert (H3 : 2 * k ^ 9 * x3
                       == 20 * k ^ 6 * l1 + k ^ 8 * l2 - 8 * k ^ 7 * l3)
            by ring
        end end end.
        rewrite E1, E2, E3 in H1, H2, H3.
        pose proof (Qpow9_nonzero k Hk) as Hk9.
        repeat split.
        -- qreplace x1 with (2 * k ^ 9 * x1 / (2 * k ^ 9)) by (field; done).
           rewrite H1. field. done.
        -- qreplace x2 with (2 * k ^ 9 * x2 / (2 * k ^ 9)) by (field; done).
           rewrite H2. field. done.
        -- qreplace x3 with (2 * k ^ 9 * x3 / (2 * k ^ 9)) by (field; done).
           rewrite H3. field. done.
      * intros (-> & -> & ->). repeat split; field; done.
    + pose proof (smooth_coefficients_constraints T D HT) as Hc.
      unfold smooth_coefficients, quintic_rate in *.
      destruct Hc as (Hpos & Hacc & Hrate). repeat split; done.
Qed.

(** X7.  For [T > 0] and a displacement that is not negative, the rate
    [5 a t^4 + 4 b t^3 + 3 c t^2] of that solution is symmetric about
    [T / 2], is [15 D / (8 T)] there, and lies between 0 and this value
    on all of [[0, T]]: the midpoint gradient that the search compares
    with the maximum rate is the largest rate of the exact curve. *)
Theorem smooth_rate_is_largest_at_midpoint (T : Z) (D : Q) :
  (0 < T)%Z -> 0 <= D ->
  let c := smooth_coefficients T D in
  quintic_rate c (inject_Z T / 2) == 15 * D / (8 * inject_Z T)
  /\ (forall t, quintic_rate c (inject_Z T - t) == quintic_rate c t)
  /\ (forall t, 0 <= t <= inject_Z T ->
                0 <= quintic_rate c t <= 15 * D / (8 * inject_Z T)).
Proof.
  intros HT HD c. subst c. split; [apply midpoint_gradient_smooth; lia|].
  split.
  - intros t. rewrite !quintic_rate_smooth by lia.
    pose proof (inject_Z_nonzero T ltac:(lia)). field. done.
  - intros t Ht. split.
    + by apply quintic_rate_smooth_nonneg.
    + by apply quintic_rate_smooth_le_midpoint.
Qed.


(** ** [calc_build_time] *)

Local Open Scope Z_scope.

(** X10.  For every arithmetic, every solver and all arguments,
    [calc_build_time] ends, in one of four ways.  It returns a build time
    [T] between 1 and [steps] with the coefficients that the solve returned
    at [T - 1], whose midpoint gradient is not above the maximum rate.  It
    raises [ValueError].  It raises [UnboundLocalError] for [coefficients],
    only when [np.inf] is not above the maximum rate and the loop is never
    entered.  Or it raises what the solve raised, other than [LinAlgError],
    at a time between 0 and [steps]: a [LinAlgError] of the solve is never
    passed on. *)
Theorem calc_build_time_result {F : Type} {float : Float F}
        (solve : FP.mat3 -> FP.vec3 F -> result (FP.vec3 F))
        (D Rmax : F) (steps : Z) :
  exists r,
    FP.calc_build_time solve D Rmax steps = Some r
    /\ match r with
       | Ok (T, c) =>
           1 <= T <= steps
           /\ exists g, FP._calc_midpoint_gradient solve (T - 1) D = Ok (g, c)
                        /\ (Rmax ≺ g)%fp = false
       | Raise e =>
           e = ValueError
           \/ (e = UnboundLocalError /\ inf_gt Rmax = false)
           \/ (e <> LinAlgError
               /\ exists T, 0 <= T <= Z.max 0 steps
                            /\ FP._calc_midpoint_gradient solve T D = Raise e)
       end.
Proof.
  destruct (FP.calc_build_time solve D Rmax steps) as [r|] eqn:E.
  - exists r. split; [done|].
    apply (calc_build_time_loop_result solve D Rmax steps
             (S (Z.to_nat steps)) 0 FP.Inf None r); [lia|done|exact E].
  - exfalso. revert E. apply calc_build_time_loop_ends. lia.
Qed.

(** X12.  For a positive displacement and rate the result does not depend
    on the budget beyond whether it is met: when the call returns [(T, c)]
    for one budget, it returns the same for every budget of at least [T],
    and raises [ValueError] for every smaller one. *)
Theorem calc_build_time_budget (D Rmax : Q) (steps steps' T : Z) (c : vec3) :
  (0 < D)%Q -> (0 < Rmax)%Q ->
  calc_build_time D Rmax steps = Some (Ok (T, c)) ->
  (T <= steps' -> calc_build_time D Rmax steps' = Some (Ok (T, c)))
  /\ (steps' < T -> calc_build_time D Rmax steps' = Some (Raise ValueError)).
Proof.
  intros HD HR Hret.
  destruct (calc_build_time_spec D Rmax steps HD HR)
    as (mk & ck & Hk & _ & Hrun).
  destruct (calc_build_time_spec D Rmax steps' HD HR)
    as (mk' & ck' & Hk' & _ & Hrun').
  rewrite Hk in Hk'. injection Hk' as <- <-.
  rewrite Hrun in Hret. rewrite Hrun'.
  destruct (min_build_time D Rmax <? steps) eqn:E; [|done].
  injection Hret as <- <-.
  split; intros H.
  - by assert ((min_build_time D Rmax <? steps') = true) as -> by lia.
  - by assert ((min_build_time D Rmax <? steps') = false) as -> by lia.
Qed.


(** ** [calc_displacement_scale] along a run *)

Lemma last_replicate_cons (n : nat) (e : Z) :
  last (e :: replicate n e) = Some e.
Proof.
  induction n as [|n IH]; [done|].
  change (replicate (S n) e) with (e :: replicate n e).
  by rewrite last_cons_cons.
Qed.

Section RunFP.
Context {F : Type} {float : Float F}.
Variables (coefficients : FP.vec3 F) (max_displacement : F) (build_time : Z)
          (max_displacement_rate build_displacement : F).

(** Once recorded, [ease_off] stays for the rest of the run. *)
Lemma run_ease_off_frozen (steps : list Z) (e : Z) :
  e <> 0 ->
  map snd (run coefficients max_displacement build_time
             max_displacement_rate build_displacement steps e)
  = replicate (length steps) e.
Proof.
  intros He. destruct coefficients as [[a b] c].
  induction steps as [|s steps IH]; [done|].
  cbn [run map length replicate]. rewrite ease_off_step.
  apply Z.eqb_neq in He. rewrite He. by rewrite IH.
Qed.

(** X14.  Along a run over steps that are not 0, starting with
    [ease_off = 0], in every arithmetic, the [ease_off] of the last call is
    the first step of the run that is in the constant-rate phase and at
    which the displacement, added up as the code does, is not below
    [max_displacement]; it is 0 when the run has no such step. *)
Theorem ease_off_is_first_reaching_step (steps : list Z) :
  Forall (fun step => step <> 0) steps ->
  last (0 :: map snd (run coefficients max_displacement build_time
                        max_displacement_rate build_displacement steps 0))
  = Some (default 0
            (List.find (reaches_target max_displacement build_time
                          max_displacement_rate build_displacement) steps)).
Proof.
  pose proof run_ease_off_frozen as Hfrozen.
  destruct coefficients as [[a b] c].
  induction 1 as [|s steps Hs _ IH]; [done|].
  cbn [run map List.find].
  rewrite last_cons_cons, ease_off_step. cbn [Z.eqb].
  destruct (reaches_target _ _ _ _ s); simpl.
  - rewrite Hfrozen by done. apply last_replicate_cons.
  - exact IH.
Qed.

End RunFP.

(** ** The rate of a returned ramp *)


(** ** [boundary_function]: errors and repeated calls *)

(** X17.  [boundary_function] returns exactly when [u] has a column and
    every index of [model.lhs] and [model.rhs] is within [-n, n) for the
    [n] rows of [u]; otherwise it raises [IndexError], and it raises
    nothing else. *)
Theorem boundary_function_succeeds_iff (model : Model) (u : ndarray) (step : Z) :
  let in_range := fun z =>
    - Z.of_nat (length (rows u)) <= z < Z.of_nat (length (rows u)) in
  ((exists u', boundary_function model u step = Ok u')
   <-> Forall in_range (lhs model) /\ Forall in_range (rhs model)
       /\ (0 < ncols u)%nat)
  /\ (forall e, boundary_function model u step = Raise e -> e = IndexError).
Proof.
  intros in_range.
  destruct (boundary_function_cases model u step)
    as [(HL & HR & Hc & L & R & EL & ER)|[Hbad Hraise]].
  - destruct (boundary_function_rows model u step L R EL ER Hc)
      as (u' & Hrun & _).
    split; [|intros e; by rewrite Hrun].
    split; [done|]. intros _. by exists u'.
  - split; [|intros e; rewrite Hraise; by intros [= <-]].
    split; [|done]. intros [u' Hu']. by rewrite Hraise in Hu'.
Qed.

Lemma load_row_twice (a b : bool) (step1 step2 : Z) (r : list Q) :
  load_row a b step2 (load_row a b step1 r) = load_row a b step2 r.
Proof.
  apply list_eq. intros j. rewrite !load_row_lookup.
  destruct (r !! j) as [x|]; simpl; [|done]. f_equal.
  destruct (a || b); [|done]. by destruct j as [|[|[|j]]].
Qed.

Lemma ndarray_eq (u v : ndarray) :
  ncols u = ncols v -> rows u = rows v -> u = v.
Proof. destruct u, v. simpl. by intros -> ->. Qed.

(** X18.  A call of [boundary_function] overwrites what an earlier call
    wrote: applying it for [step2] to the result for [step1] gives the same
    array as applying it for [step2] at once; with [step2 = step1], a
    second call changes nothing. *)
Theorem boundary_function_overwrites (model : Model) (u u1 : ndarray)
        (step1 step2 : Z) :
  boundary_function model u step1 = Ok u1 ->
  boundary_function model u1 step2 = boundary_function model u step2
  /\ boundary_function model u1 step1 = Ok u1.
Proof.
  intros Hrun1.
  destruct (boundary_function_cases model u step1)
    as [(_ & _ & Hc & L & R & EL & ER)|[_ Hraise]];
    [|by rewrite Hraise in Hrun1].
  destruct (boundary_function_rows model u step1 L R EL ER Hc)
    as (u1' & Hrun1' & Hc1 & Hlen1 & Hrows1).
  rewrite Hrun1 in Hrun1'. injection Hrun1' as <-.
  assert (Hover : forall s,
             boundary_function model u1 s = boundary_function model u s).
  { intros s.
    destruct (boundary_function_rows model u s L R EL ER Hc)
      as (u2 & Hrun2 & Hc2 & Hlen2 & Hrows2).
    destruct (boundary_function_rows model u1 s L R)
      as (u3 & Hrun3 & Hc3 & Hlen3 & Hrows3); [by rewrite Hlen1..|lia|].
    rewrite Hrun2, Hrun3. f_equal. apply ndarray_eq; [congruence|].
    apply list_eq. intros i. rewrite Hrows3, Hrows1, Hrows2.
    destruct (rows u !! i) as [r|]; simpl; [|done].
    by rewrite load_row_twice. }
  split; [apply Hover|]. by rewrite Hover.
Qed.

(** ** [is_tip], [is_boundary] and the sides of the model *)

Lemma getitem_0 (x : list Q) :
  getitem x 0 = match x with [] => Raise IndexError | x0 :: _ => Ok x0 end.
Proof. by destruct x. Qed.

(** X19.  [is_tip] and [is_boundary] raise [IndexError] on an empty
    coordinate and return otherwise; and for a horizon that is not negative
    every tip particle is on the loaded boundary: where [is_tip] returns 1,
    [is_boundary] returns 1, or -1 when the particle is also left of
    [1.5 * horizon]. *)
Theorem tip_is_on_boundary (horizon : Q) (x : list Q) :
  (x = [] -> is_tip horizon x = Raise IndexError
             /\ is_boundary horizon x = Raise IndexError)
  /\ (x <> [] -> (is_tip horizon x = Ok 0 \/ is_tip horizon x = Ok 1)
                 /\ (is_boundary horizon x = Ok (-1)
                     \/ is_boundary horizon x = Ok 1
                     \/ is_boundary horizon x = Ok 2))
  /\ ((0 <= horizon)%Q -> is_tip horizon x = Ok 1 ->
      is_boundary horizon x = Ok 1 \/ is_boundary horizon x = Ok (-1)).
Proof.
  unfold is_tip, is_boundary. rewrite !getitem_0.
  destruct x as [|x0 x]; simpl; [by repeat split|].
  split; [done|]. split.
  - intros _. split.
    + destruct (Qltb (1 - 1 * horizon) x0); auto.
    + destruct (Qltb x0 ((3 # 2) * horizon)); simpl; [auto|].
      destruct (Qltb (1 - (3 # 2) * horizon) x0); auto.
  - intros Hh.
    destruct (Qltb_spec (1 - 1 * horizon) x0) as [Htip|Htip]; [|done].
    intros _.
    destruct (Qltb x0 ((3 # 2) * horizon)); simpl; [auto|].
    destruct (Qltb_spec (1 - (3 # 2) * horizon) x0) as [Hb|Hb]; [auto|].
    exfalso. lra.
Qed.

Lemma elem_of_nonzero_from (i : Z) (mask : list bool) (z : Z) :
  z ∈ nonzero_from i mask
  <-> exists k : nat, z = i + Z.of_nat k /\ mask !! k = Some true.
Proof.
  revert i. induction mask as [|b mask IH]; intros i; simpl.
  - split; [by intros H%elem_of_nil|by intros (k & _ & H)].
  - assert (Hrest : z ∈ nonzero_from (i + 1) mask
                    <-> exists k : nat, z = i + Z.of_nat (S k)
                                        /\ mask !! k = Some true).
    { rewrite IH. split; intros (k & -> & Hk); exists k; (split; [lia|done]). }
    destruct b.
    + rewrite elem_of_cons, Hrest. split.
      * intros [->|(k & -> & Hk)]; [exists 0%nat; split; [lia|done]|].
        by exists (S k).
      * intros ([|k] & -> & Hk); [left; lia|right; by exists k].
    + rewrite Hrest. split.
      * intros (k & -> & Hk). by exists (S k).
      * intros ([|k] & -> & Hk); [done|by exists k].
Qed.

Lemma elem_of_nonzero (mask : list bool) (i : nat) :
  Z.of_nat i ∈ nonzero mask <-> mask !! i = Some true.
Proof.
  unfold nonzero. rewrite elem_of_nonzero_from. split.
  - intros (k & Hk & Hm). by assert (i = k) as -> by lia.
  - intros H. by exists i.
Qed.

Lemma nonzero_in_range (mask : list bool) :
  Forall (fun z => 0 <= z < Z.of_nat (length mask)) (nonzero mask).
Proof.
  apply Forall_forall. intros z Hz.
  apply elem_of_nonzero_from in Hz as (k & -> & Hk).
  apply lookup_lt_Some in Hk. lia.
Qed.

Lemma main_sides_ok (coords : ndarray) (horizon : Q) :
  (0 < ncols coords)%nat ->
  main_sides coords horizon
  = Ok {| lhs := nonzero (map (fun x0 => Qltb x0 ((3 # 2) * horizon))
                            (map (fun r => nth 0 r 0%Q) (rows coords)));
          rhs := nonzero (map (fun x0 => Qltb (1 - (3 # 2) * horizon) x0)
                            (map (fun r => nth 0 r 0%Q) (rows coords))) |}.
Proof.
  intros Hc. unfold main_sides, getcol.
  apply Nat.ltb_lt in Hc. by rewrite Hc.
Qed.

Lemma main_sides_lhs (coords : ndarray) (horizon : Q) (model : Model)
      (i : nat) :
  main_sides coords horizon = Ok model ->
  Z.of_nat i ∈ lhs model
  <-> exists r, rows coords !! i = Some r
                /\ (nth 0 r 0 < (3 # 2) * horizon)%Q.
Proof.
  destruct (ncols coords) as [|n] eqn:Ec.
  - unfold main_sides, getcol. by rewrite Ec.
  - rewrite main_sides_ok by lia. intros [= <-]. simpl.
    rewrite elem_of_nonzero, !list_lookup_fmap.
    destruct (rows coords !! i) as [r|]; simpl.
    + split.
      * intros [= H]. exists r. split; [done|]. by apply Qltb_lt.
      * intros (r' & [= <-] & H). f_equal. by apply Qltb_lt.
    + split; [done|]. by intros (r & ? & _).
Qed.

Lemma main_sides_rhs (coords : ndarray) (horizon : Q) (model : Model)
      (i : nat) :
  main_sides coords horizon = Ok model ->
  Z.of_nat i ∈ rhs model
  <-> exists r, rows coords !! i = Some r
                /\ (1 - (3 # 2) * horizon < nth 0 r 0)%Q.
Proof.
  destruct (ncols coords) as [|n] eqn:Ec.
  - unfold main_sides, getcol. by rewrite Ec.
  - rewrite main_sides_ok by lia. intros [= <-]. simpl.
    rewrite elem_of_nonzero, !list_lookup_fmap.
    destruct (rows coords !! i) as [r|]; simpl.
    + split.
      * intros [= H]. exists r. split; [done|]. by apply Qltb_lt.
      * intros (r' & [= <-] & H). f_equal. by apply Qltb_lt.
    + split; [done|]. by intros (r & ? & _).
Qed.

Lemma main_sides_in_range (coords : ndarray) (horizon : Q) (model : Model) :
  main_sides coords horizon = Ok model ->
  Forall (fun z => 0 <= z < Z.of_nat (length (rows coords))) (lhs model)
  /\ Forall (fun z => 0 <= z < Z.of_nat (length (rows coords))) (rhs model).
Proof.
  destruct (ncols coords) as [|n] eqn:Ec.
  - unfold main_sides, getcol. by rewrite Ec.
  - rewrite main_sides_ok by lia. intros [= <-]. simpl.
    split.
    + pose proof (nonzero_in_range
                    (map (fun x0 => Qltb x0 ((3 # 2) * horizon))
                       (map (fun r => nth 0 r 0%Q) (rows coords)))) as H.
      by rewrite !length_map in H.
    + pose proof (nonzero_in_range
                    (map (fun x0 => Qltb (1 - (3 # 2) * horizon) x0)
                       (map (fun r => nth 0 r 0%Q) (rows coords)))) as H.
      by rewrite !length_map in H.
Qed.

(** What [is_boundary] returns for a coordinate with abscissa [x0]. *)
Lemma is_boundary_cases (horizon x0 : Q) (x : list Q) :
  (is_boundary horizon (x0 :: x) = Ok (-1) <-> (x0 < (3 # 2) * horizon)%Q)
  /\ (is_boundary horizon (x0 :: x) = Ok 1
      <-> ~ (x0 < (3 # 2) * horizon)%Q /\ (1 - (3 # 2) * horizon < x0)%Q)
  /\ (is_boundary horizon (x0 :: x) = Ok 2
      <-> ~ (x0 < (3 # 2) * horizon)%Q /\ ~ (1 - (3 # 2) * horizon < x0)%Q).
Proof.
  unfold is_boundary. simpl.
  destruct (Qltb_spec x0 ((3 # 2) * horizon)) as [Hl|Hl]; simpl.
  - repeat split; try done; by intros [? ?].
  - destruct (Qltb_spec (1 - (3 # 2) * horizon) x0) as [Hg|Hg];
      repeat split; try done; by intros [? ?].
Qed.

(** For a horizon of at most 1/3 no particle is on both sides. *)
Lemma main_sides_disjoint (coords : ndarray) (horizon : Q) (model : Model)
      (z : Z) :
  main_sides coords horizon = Ok model -> (horizon <= 1 # 3)%Q ->
  z ∈ lhs model -> z ∉ rhs model.
Proof.
  intros Hm Hh Hl Hrhs.
  destruct (main_sides_in_range _ _ _ Hm) as [HL HR].
  rewrite Forall_forall in HL. pose proof (HL z Hl) as Hz.
  rewrite <- (Z2Nat.id z) in Hl, Hrhs by lia.
  apply (main_sides_lhs _ _ _ _ Hm) in Hl as (r & Hr & Hlt).
  apply (main_sides_rhs _ _ _ _ Hm) in Hrhs as (r' & Hr' & Hgt).
  assert (r' = r) as -> by congruence. lra.
Qed.

(** X20.  The sides that [main] computes: without a column in [coords] the
    selection raises [IndexError]; otherwise both index arrays hold rows of
    [coords] only, none of them negative, and for a horizon of at most 1/3
    no particle is on both sides. *)
Theorem main_sides_partition (coords : ndarray) (horizon : Q) :
  (ncols coords = 0%nat -> main_sides coords horizon = Raise IndexError)
  /\ ((0 < ncols coords)%nat ->
      exists model,
        main_sides coords horizon = Ok model
        /\ Forall (fun z => 0 <= z < Z.of_nat (length (rows coords)))
             (lhs model)
        /\ Forall (fun z => 0 <= z < Z.of_nat (length (rows coords)))
             (rhs model)
        /\ ((horizon <= 1 # 3)%Q ->
            forall z, z ∈ lhs model -> z ∉ rhs model)).
Proof.
  split.
  - intros Hc. unfold main_sides, getcol. by rewrite Hc.
  - intros Hc. eexists. split; [by apply main_sides_ok|].
    pose proof (main_sides_ok coords horizon Hc) as Hm.
    destruct (main_sides_in_range _ _ _ Hm) as [HL HR].
    split; [done|]. split; [done|].
    intros Hh z. by apply (main_sides_disjoint coords horizon _ z Hm).
Qed.

(** X21.  The sides of [main] agree with the classification of
    [is_boundary]: for a row of [coords] with at least one component, the
    particle is in [lhs] exactly when [is_boundary] returns -1, and in
    [rhs] but not in [lhs] exactly when it returns 1. *)
Theorem main_sides_agree_with_is_boundary (coords : ndarray) (horizon : Q)
        (model : Model) (i : nat) (r : list Q) :
  main_sides coords horizon = Ok model ->
  rows coords !! i = Some r -> r <> [] ->
  (Z.of_nat i ∈ lhs model <-> is_boundary horizon r = Ok (-1))
  /\ (Z.of_nat i ∈ rhs model /\ Z.of_nat i ∉ lhs model
      <-> is_boundary horizon r = Ok 1).
Proof.
  intros Hm Hr Hne.
  rewrite (main_sides_lhs _ _ _ i Hm), (main_sides_rhs _ _ _ i Hm).
  unfold is_boundary. rewrite !getitem_0.
  destruct r as [|x0 r]; [done|]. simpl.
  destruct (Qltb_spec x0 ((3 # 2) * horizon)) as [Hl|Hl]; simpl.
  - split.
    + split; [done|]. intros _. by exists (x0 :: r).
    + split; [|done]. intros [_ Hnot]. exfalso. apply Hnot.
      by exists (x0 :: r).
  - split.
    + split; [|by destruct (Qltb _ x0)].
      intros (r' & Hr' & H). exfalso. apply Hl.
      assert (r' = x0 :: r) as -> by congruence. done.
    + destruct (Qltb_spec (1 - (3 # 2) * horizon) x0) as [Hg|Hg].
      * split; [done|]. intros _. split; [by exists (x0 :: r)|].
        intros (r' & Hr' & H). apply Hl.
        assert (r' = x0 :: r) as -> by congruence. done.
      * split; [|done]. intros [(r' & Hr' & H) _]. exfalso. apply Hg.
        assert (r' = x0 :: r) as -> by congruence. done.
Qed.

(** X22.  [boundary_function] applies the boundary that [is_boundary]
    marks.  With the sides that [main] computes from [coords], it never
    raises on an array [u] with a column and as many rows as [coords], and
    for every particle with a coordinate: where [is_boundary] returns 1,
    component 0 becomes [+extension] and components 1 and 2 become 0; where
    it returns -1, for a horizon of at most 1/3, component 0 becomes
    [-extension] and components 1 and 2 become 0; where it returns 2, the
    row is unchanged. *)
Theorem boundary_function_on_main_sides (coords : ndarray) (horizon : Q)
        (model : Model) (u : ndarray) (step : Z) :
  main_sides coords horizon = Ok model ->
  wf u -> (0 < ncols u)%nat -> length (rows u) = length (rows coords) ->
  exists u',
    boundary_function model u step = Ok u'
    /\ ncols u' = ncols u
    /\ length (rows u') = length (rows u)
    /\ forall (i : nat) (xi r : list Q),
        rows coords !! i = Some xi -> xi <> [] -> rows u !! i = Some r ->
        exists r',
          rows u' !! i = Some r'
          /\ (is_boundary horizon xi = Ok 1 ->
              r' !! 0%nat = Some (extension step)
              /\ r' !! 1%nat = (fun _ => 0%Q) <$> r !! 1%nat
              /\ r' !! 2%nat = (fun _ => 0%Q) <$> r !! 2%nat)
          /\ (is_boundary horizon xi = Ok (-1) -> (horizon <= 1 # 3)%Q ->
              r' !! 0%nat = Some (- extension step)%Q
              /\ r' !! 1%nat = (fun _ => 0%Q) <$> r !! 1%nat
              /\ r' !! 2%nat = (fun _ => 0%Q) <$> r !! 2%nat)
          /\ (is_boundary horizon xi = Ok 2 -> r' = r).
Proof.
  intros Hm Hwf Hc Hlen.
  destruct (main_sides_in_range _ _ _ Hm) as [HL HR].
  rewrite <- Hlen in HL, HR.
  destruct (boundary_function_rows model u step _ _
              (normalize_indices_in_range _ _ HL)
              (normalize_indices_in_range _ _ HR) Hc)
    as (u' & Hrun & Hcols & Hlen' & Hrows).
  exists u'. split; [done|]. split; [done|]. split; [done|].
  intros i xi r Hxi Hne Hr. rewrite Hrows, Hr. simpl.
  eexists. split; [reflexivity|].
  destruct xi as [|x0 xi]; [done|].
  destruct (is_boundary_cases horizon x0 xi) as (Hneg & Hpos & Hnone).
  assert (Hleft : Z.of_nat i ∈ lhs model <-> (x0 < (3 # 2) * horizon)%Q).
  { rewrite (main_sides_lhs _ _ _ i Hm).
    split; [intros (r0 & Hr0 & Hlt); by simplify_eq|by exists (x0 :: xi)]. }
  assert (Hright : Z.of_nat i ∈ rhs model
                   <-> (1 - (3 # 2) * horizon < x0)%Q).
  { rewrite (main_sides_rhs _ _ _ i Hm).
    split; [intros (r0 & Hr0 & Hgt); by simplify_eq|by exists (x0 :: xi)]. }
  assert (HinL : i ∈ map Z.to_nat (lhs model) <-> Z.of_nat i ∈ lhs model).
  { apply elem_of_map_to_nat. eapply Forall_impl; [exact HL|]. simpl. lia. }
  assert (HinR : i ∈ map Z.to_nat (rhs model) <-> Z.of_nat i ∈ rhs model).
  { apply elem_of_map_to_nat. eapply Forall_impl; [exact HR|]. simpl. lia. }
  assert (Hrlen : (0 < length r)%nat).
  { unfold wf in Hwf. rewrite Forall_forall in Hwf.
    rewrite (Hwf r); [done|]. by eapply list_elem_of_lookup_2. }
  rewrite !load_row_lookup.
  destruct (lookup_lt_is_Some_2 r 0 Hrlen) as [v0 Hv0]. rewrite Hv0.
  split; [|split].
  - intros H1. apply Hpos in H1 as [_ HiR]. apply Hright in HiR.
    rewrite (bool_decide_eq_true_2 (i ∈ map Z.to_nat (rhs model)))
      by (by apply HinR).
    rewrite orb_true_r. repeat split; by destruct (r !! _).
  - intros H1 Hh. apply Hneg, Hleft in H1.
    pose proof (main_sides_disjoint coords horizon model _ Hm Hh H1) as HnR.
    rewrite (bool_decide_eq_true_2 (i ∈ map Z.to_nat (lhs model)))
      by (by apply HinL).
    rewrite (bool_decide_eq_false_2 (i ∈ map Z.to_nat (rhs model)))
      by (by rewrite HinR).
    repeat split; by destruct (r !! _).
  - intros H2. apply Hnone in H2 as [HnL HnR].
    rewrite !bool_decide_eq_false_2 by (by rewrite ?HinL, ?HinR, ?Hleft, ?Hright).
    apply load_row_untouched.
Qed.

(** X24.  [is_crack] returns 0 or 1 or raises [IndexError], nothing else;
    it raises when a coordinate is empty, and returns 0, without looking
    at the second components, for two particles on the same side of the
    line: coordinates with one component are enough there. *)
Theorem is_crack_results (x y : list Q) :
  (is_crack x y = Ok 0 \/ is_crack x y = Ok 1
   \/ is_crack x y = Raise IndexError)
  /\ (x = [] \/ y = [] -> is_crack x y = Raise IndexError)
  /\ (forall x0 y0 : Q,
         (x0 < cut_line /\ y0 < cut_line)%Q
         \/ (cut_line < x0 /\ cut_line < y0)%Q ->
         is_crack [x0] [y0] = Ok 0).
Proof.
  split; [|split].
  - unfold is_crack, getitem, truediv.
    destruct (x !! 0%nat) as [x0|] eqn:Ex, (y !! 0%nat) as [y0|] eqn:Ey;
      simpl; auto.
    assert (Hnz : forall a b : Q,
               (a < (1 # 2) + (1 # 1000000))%Q ->
               ((1 # 2) + (1 # 1000000) < b)%Q ->
               Qeq_bool (b - a) 0 = false).
    { intros a b Ha Hb. destruct (Qeq_bool (b - a) 0) eqn:E; [|done].
      apply Qeq_bool_eq in E. exfalso. lra. }
    destruct (Qltb y0 x0); rewrite ?Ex, ?Ey; simpl.
    + destruct (Qltb_spec y0 ((1 # 2) + (1 # 1000000))) as [H1|H1];
        simpl; auto.
      destruct (Qltb_spec ((1 # 2) + (1 # 1000000)) x0) as [H2|H2];
        simpl; auto.
      destruct (x !! 1%nat), (y !! 1%nat); simpl; auto.
      rewrite (Hnz _ _ H1 H2). simpl. destruct (_ && _); auto.
    + destruct (Qltb_spec x0 ((1 # 2) + (1 # 1000000))) as [H1|H1];
        simpl; auto.
      destruct (Qltb_spec ((1 # 2) + (1 # 1000000)) y0) as [H2|H2];
        simpl; auto.
      destruct (y !! 1%nat), (x !! 1%nat); simpl; auto.
      rewrite (Hnz _ _ H1 H2). simpl. destruct (_ && _); auto.
  - unfold is_crack, getitem. intros [-> | ->]; [done|].
    by destruct (x !! 0%nat).
  - intros x0 y0 Hside.
    apply (is_crack_same_side [x0] [y0] x0 y0); [done|done|].
    intros [[H1 H2]|[H1 H2]]; destruct Hside as [[H3 H4]|[H3 H4]]; lra.
Qed.

(** ** The further properties at concrete inputs *)



Lemma write_keeps_reads_witness :
  let fs : gmap string (gmap string (list Z)) :=
    {[ "model.h5"%string := {[ "family"%string := [1; 2] ]} ]} in
  read_array KeyError fs "model.h5" "family" = Ok (Some [1; 2])
  /\ read_array KeyError
       (fst (write_array ValueError fs "model.h5" "volume" [3]))
       "model.h5" "family"
     = Ok (Some [1; 2]).
Proof.
  intros fs.
  assert (H : read_array KeyError fs "model.h5" "family" = Ok (Some [1; 2]))
    by reflexivity.
  split; [exact H|].
  exact (write_keeps_reads ValueError KeyError fs "model.h5" "volume" [3]
           "model.h5" "family" [1; 2] H).
Defined.


Lemma calc_build_time_budget_witness :
  (0 < 1)%Q /\ (0 < 1)%Q
  /\ calc_build_time 1 1 10
     = Some (Ok (3, (192 # 1024, -960 # 1024, 1280 # 1024)%Q))
  /\ calc_build_time 1 1 3
     = Some (Ok (3, (192 # 1024, -960 # 1024, 1280 # 1024)%Q))
  /\ calc_build_time 1 1 2 = Some (Raise ValueError).
Proof.
  split; [reflexivity|]. split; [reflexivity|]. split; [reflexivity|].
  split.
  - apply (proj1 (calc_build_time_budget 1 1 10 3 3 _
                    eq_refl eq_refl eq_refl)). lia.
  - apply (proj2 (calc_build_time_budget 1 1 10 2 3 _
                    eq_refl eq_refl eq_refl)). lia.
Defined.



Lemma main_sides_agree_with_is_boundary_witness :
  let coords := {| ncols := 3;
                   rows := [[1 # 10; 0; 0]; [1 # 2; 0; 0]; [9 # 10; 0; 0]]%Q |} in
  main_sides coords (1 # 10) = Ok {| lhs := [0]; rhs := [2] |}
  /\ rows coords !! 2%nat = Some [9 # 10; 0; 0]%Q
  /\ [9 # 10; 0; 0]%Q <> []
  /\ is_boundary (1 # 10) [9 # 10; 0; 0]%Q = Ok 1.
Proof.
  intros coords.
  assert (H0 : main_sides coords (1 # 10) = Ok {| lhs := [0]; rhs := [2] |})
    by reflexivity.
  assert (H1 : rows coords !! 2%nat = Some [9 # 10; 0; 0]%Q) by reflexivity.
  assert (H2 : [9 # 10; 0; 0]%Q <> []) by discriminate.
  split; [exact H0|]. split; [exact H1|]. split; [exact H2|].
  apply (proj2 (main_sides_agree_with_is_boundary coords (1 # 10) _ 2 _
                  H0 H1 H2)).
  simpl. split; [apply list_elem_of_singleton; reflexivity|].
  rewrite list_elem_of_singleton. discriminate.
Defined.

Lemma boundary_function_overwrites_witness :
  let model := {| lhs := [0]; rhs := [2] |} in
  let u := {| ncols := 3;
              rows := [[1; 1; 1]; [1; 1; 1]; [1; 1; 1]]%Q |} in
  let u1 := {| ncols := 3;
               rows := [[-5 # 2000000; 0; 0]; [1; 1; 1];
                        [5 # 2000000; 0; 0]]%Q |} in
  boundary_function model u 1 = Ok u1
  /\ boundary_function model u1 2 = boundary_function model u 2
  /\ boundary_function model u1 1 = Ok u1.
Proof.
  intros model u u1.
  assert (H : boundary_function model u 1 = Ok u1) by reflexivity.
  split; [exact H|].
  exact (boundary_function_overwrites model u u1 1 2 H).
Defined.

Lemma boundary_function_succeeds_iff_witness :
  let u := {| ncols := 3;
              rows := [[1; 1; 1]; [1; 1; 1]; [1; 1; 1]]%Q |} in
  exists u', boundary_function {| lhs := [0]; rhs := [-1] |} u 1 = Ok u'.
Proof.
  intros u.
  apply (proj1 (boundary_function_succeeds_iff
                  {| lhs := [0]; rhs := [-1] |} u 1)).
  simpl. repeat split; try (repeat constructor; lia).
Defined.

Lemma tip_is_on_boundary_witness :
  (0 <= 1 # 10)%Q
  /\ is_tip (1 # 10) [95 # 100; 0; 0]%Q = Ok 1
  /\ (is_boundary (1 # 10) [95 # 100; 0; 0]%Q = Ok 1
      \/ is_boundary (1 # 10) [95 # 100; 0; 0]%Q = Ok (-1)).
Proof.
  assert (H0 : (0 <= 1 # 10)%Q) by qcompute.
  assert (H1 : is_tip (1 # 10) [95 # 100; 0; 0]%Q = Ok 1) by reflexivity.
  split; [exact H0|]. split; [exact H1|].
  exact (proj2 (proj2 (tip_is_on_boundary (1 # 10) [95 # 100; 0; 0]%Q))
           H0 H1).
Defined.

Lemma is_crack_results_witness :
  is_crack [] [1 # 2; 1 # 2]%Q = Raise IndexError
  /\ is_crack [1 # 10]%Q [2 # 10]%Q = Ok 0.
Proof.
  split.
  - apply (proj1 (proj2 (is_crack_results [] [1 # 2; 1 # 2]%Q))). by left.
  - apply (proj2 (proj2 (is_crack_results [] []))). left.
    split; reflexivity.
Defined.

Local Open Scope Q_scope.

Lemma system_has_one_solution_witness :
  (2%Z <> 0%Z)
  /\ vec3_eq (mat_vec (system_matrix 2) (3 # 16, -15 # 16, 5 # 4)) (1, 0, 0)
  /\ vec3_eq (3 # 16, -15 # 16, 5 # 4) (smooth_coefficients 2 1).
Proof.
  assert (H : 2%Z <> 0%Z) by discriminate.
  assert (Hs : vec3_eq (mat_vec (system_matrix 2) (3 # 16, -15 # 16, 5 # 4))
                 (1, 0, 0)) by (repeat split).
  split; [exact H|]. split; [exact Hs|].
  exact (proj1 (proj1 (proj2 (system_has_one_solution 2 1) H) _) Hs).
Defined.

Lemma smooth_rate_is_largest_at_midpoint_witness :
  (0 < 2)%Z /\ 0 <= 1
  /\ quintic_rate (smooth_coefficients 2 1) (1 # 3) <= 15 * 1 / (8 * inject_Z 2).
Proof.
  assert (H0 : (0 < 2)%Z) by lia.
  assert (H1 : 0 <= 1) by qcompute.
  split; [exact H0|]. split; [exact H1|].
  apply (proj2 (proj2 (smooth_rate_is_largest_at_midpoint 2 1 H0 H1))
           (1 # 3)).
  split; qcompute.
Defined.

Local Open Scope Z_scope.

(** The search with a solve that raises [TypeError] once an entry of the
    matrix is [2**64] or more, as [np.linalg.solve] does for the array of
    Python objects that [np.array] then builds, and that is Cramer's rule
    below: for [build_displacement = 0.5], [max_displacement_rate = 1e-4]
    and [steps = 10000] the [TypeError] of the solve at [T = 7132] leaves
    [calc_build_time]. *)
Lemma calc_build_time_result_witness :
  let solve := fun (A : FP.mat3) (b : vec3) =>
    let '((a11, _, _), _, _) := A in
    if 2 ^ 64 <=? a11 then Raise TypeError else exact_solve A b in
  FP.calc_build_time solve (1 # 2)%Q (1 # 10000)%Q 10000
  = Some (Raise TypeError)
  /\ exists T, 0 <= T <= 10000
               /\ FP._calc_midpoint_gradient solve T (1 # 2)%Q
                  = Raise TypeError.
Proof.
  intros solve.
  assert (Hrun : FP.calc_build_time solve (1 # 2)%Q (1 # 10000)%Q 10000
                 = Some (Raise TypeError)) by (vm_compute; reflexivity).
  split; [exact Hrun|].
  destruct (calc_build_time_result solve (1 # 2)%Q (1 # 10000)%Q 10000)
    as (r & Hr & Hcases).
  rewrite Hrun in Hr. injection Hr as <-.
  destruct Hcases as [Hv|[[Hu _]|(_ & T & HT & Hraise)]];
    [discriminate Hv|discriminate Hu|].
  exists T. split; [exact HT|exact Hraise].
Defined.

(** The run of the witness of C5, over the steps 3, 4 and 5: binary64
    records [ease_off] at step 4, the exact rationals at step 5. *)
Lemma ease_off_is_first_reaching_step_witness :
  let z := b64 0 0 in
  let rate := b64 4503599627370497 (-52) in
  let target := b64 5629499534213121 (-50) in
  let rate' := (4503599627370497 # 4503599627370496)%Q in
  let target' := (5629499534213121 # 1125899906842624)%Q in
  Forall (fun step => step <> 0) [3; 4; 5]
  /\ last (0 :: map snd (run (z, z, z) target 2 rate (b64 2 0) [3; 4; 5] 0))
     = Some 4
  /\ last (0 :: map snd (run (0%Q, 0%Q, 0%Q) target' 2 rate' 2%Q
                           [3; 4; 5] 0))
     = Some 5.
Proof.
  intros z rate target rate' target'.
  assert (H : Forall (fun step => step <> 0) [3; 4; 5])
    by (repeat constructor; lia).
  split; [exact H|]. split.
  - rewrite (ease_off_is_first_reaching_step (z, z, z) target 2 rate
               (b64 2 0) [3; 4; 5] H).
    reflexivity.
  - rewrite (ease_off_is_first_reaching_step (0%Q, 0%Q, 0%Q) target' 2 rate'
               2%Q [3; 4; 5] H).
    reflexivity.
Defined.

Lemma main_sides_partition_witness :
  let coords := {| ncols := 3;
                   rows := [[1 # 10; 0; 0]; [1 # 2; 0; 0]; [9 # 10; 0; 0]]%Q |} in
  (0 < ncols coords)%nat /\ (1 # 10 <= 1 # 3)%Q
  /\ exists model,
      main_sides coords (1 # 10) = Ok model
      /\ forall z, z ∈ lhs model -> z ∉ rhs model.
Proof.
  intros coords.
  assert (H0 : (0 < ncols coords)%nat) by (simpl; lia).
  assert (H1 : (1 # 10 <= 1 # 3)%Q) by qcompute.
  split; [exact H0|]. split; [exact H1|].
  destruct (proj2 (main_sides_partition coords (1 # 10)) H0)
    as (model & Hm & _ & _ & Hdisj).
  exists model. split; [exact Hm|exact (Hdisj H1)].
Defined.

Lemma boundary_function_on_main_sides_witness :
  let coords := {| ncols := 3;
                   rows := [[1 # 10; 0; 0]; [1 # 2; 0; 0]; [9 # 10; 0; 0]]%Q |} in
  let u := {| ncols := 3;
              rows := [[1; 1; 1]; [1; 1; 1]; [1; 1; 1]]%Q |} in
  main_sides coords (1 # 10) = Ok {| lhs := [0]; rhs := [2] |}
  /\ wf u /\ (0 < ncols u)%nat /\ length (rows u) = length (rows coords)
  /\ is_boundary (1 # 10) [9 # 10; 0; 0]%Q = Ok 1
  /\ exists u' r',
      boundary_function {| lhs := [0]; rhs := [2] |} u 1 = Ok u'
      /\ rows u' !! 2%nat = Some r'
      /\ r' !! 0%nat = Some (extension 1).
Proof.
  intros coords u.
  assert (H0 : main_sides coords (1 # 10) = Ok {| lhs := [0]; rhs := [2] |})
    by reflexivity.
  assert (H1 : wf u) by (repeat constructor).
  assert (H2 : (0 < ncols u)%nat) by (simpl; lia).
  assert (H3 : length (rows u) = length (rows coords)) by reflexivity.
  assert (H4 : is_boundary (1 # 10) [9 # 10; 0; 0]%Q = Ok 1) by reflexivity.
  split; [exact H0|]. split; [exact H1|]. split; [exact H2|].
  split; [exact H3|]. split; [exact H4|].
  destruct (boundary_function_on_main_sides coords (1 # 10) _ u 1 H0 H1 H2 H3)
    as (u' & Hrun & _ & _ & Hrows).
  destruct (Hrows 2%nat [9 # 10; 0; 0]%Q [1; 1; 1]%Q eq_refl
              ltac:(discriminate) eq_refl) as (r' & Hr' & Hright & _).
  exists u', r'. split; [exact Hrun|]. split; [exact Hr'|].
  exact (proj1 (Hright H4)).
Defined.

